(** * shopbd: the customer-support ticket store and auto-response classifier

    A shallow embedding of [CustomerSupportManager] from
    [src/customer_support.py]: the ticket collection with its counters, the
    lifecycle operations, the escalation monitor and the keyword classifier.

    Conventions of the embedding.
    - Python integers are unbounded: they are [Z].
    - A ticket is a Python dict with a fixed set of keys plus three keys that
      appear only after some operations ([resolved_by], [updated_by],
      [escalated]); those are [option] fields, [None] meaning "key absent".
      The value [None] of [assigned_to] / [resolution] is [None] as well.
    - [datetime.datetime.now()] is an input: every operation receives the
      clock readings it takes, one argument per call of [now()].  A reading
      is a number of microseconds; [isoformat] / [fromisoformat] are inverse
      to each other and are not represented.
    - Tickets are mutated in place through the reference returned by
      [get_ticket_by_id]; the reference is the position in the list
      ([find_ticket]) and mutation is a list update at that position.
    - [bot.send_message] is an output: every operation returns the list of
      messages it attempts to send.  Delivery failures are caught by the
      source and change nothing else.
    - [save_support_tickets] / [save_support_stats] copy the in-memory
      document to the saved one.  Storage failures are not represented. *)

From Stdlib Require Import ZArith String Ascii List Lia.
From stdpp Require Import base option list gmap strings.

Local Open Scope Z_scope.

(** ** Data model *)

Module Response.
Record t := mk {
  id : Z;
  responder_id : Z;
  response : string;
  is_admin : bool;
  timestamp : Z
}.
End Response.

Module Ticket.
Record t := mk {
  id : Z;
  user_id : Z;
  username : string;
  category : string;
  message : string;
  status : string;
  priority : string;
  created_at : Z;
  updated_at : Z;
  responses : list Response.t;
  assigned_to : option Z;
  resolution : option string;
  resolved_by : option Z;
  updated_by : option Z;
  escalated : option bool
}.

(** [ticket['responses'].append(r); ticket['updated_at'] = now] *)
Definition respond (r : Response.t) (now : Z) (tk : t) : t :=
  mk (id tk) (user_id tk) (username tk) (category tk) (message tk)
     (status tk) (priority tk) (created_at tk) now
     (responses tk ++ [r]) (assigned_to tk) (resolution tk)
     (resolved_by tk) (updated_by tk) (escalated tk).

(** the four assignments of [resolve_ticket] *)
Definition resolve (res : string) (now admin_id : Z) (tk : t) : t :=
  mk (id tk) (user_id tk) (username tk) (category tk) (message tk)
     "resolved" (priority tk) (created_at tk) now
     (responses tk) (assigned_to tk) (Some res)
     (Some admin_id) (updated_by tk) (escalated tk).

(** the three assignments of [update_ticket_status] *)
Definition set_status (new_status : string) (now admin_id : Z) (tk : t) : t :=
  mk (id tk) (user_id tk) (username tk) (category tk) (message tk)
     new_status (priority tk) (created_at tk) now
     (responses tk) (assigned_to tk) (resolution tk)
     (resolved_by tk) (Some admin_id) (escalated tk).

(** the three assignments of [escalate_ticket] *)
Definition escalate (now : Z) (tk : t) : t :=
  mk (id tk) (user_id tk) (username tk) (category tk) (message tk)
     (status tk) "high" (created_at tk) now
     (responses tk) (assigned_to tk) (resolution tk)
     (resolved_by tk) (updated_by tk) (Some true).
End Ticket.

(** [data/support_tickets.json] *)
Module SupportTickets.
Record t := mk {
  tickets : list Ticket.t;
  next_ticket_id : Z;
  active_tickets : Z;
  resolved_tickets : Z
}.
End SupportTickets.

(** [data/support_stats.json] *)
Module SupportStats.
Record t := mk {
  total_tickets : Z;
  resolved_tickets : Z;
  avg_response_time : Z;
  customer_satisfaction : Z;
  daily_tickets : gmap string Z;
  category_stats : gmap string Z
}.
End SupportStats.

(** What the manager hands to [bot.send_message]: the recipient and the
    ticket the text is about. *)
Inductive notification :=
  | NewTicket (admin_id ticket_id : Z)
  | TicketResponse (user_id ticket_id response_id : Z)
  | TicketResolved (user_id ticket_id : Z)
  | StatusUpdate (user_id ticket_id : Z) (status : string) (msg : option string)
  | TicketEscalated (admin_id ticket_id : Z).

Record manager := Manager {
  admin_users : list Z;
  support_tickets : SupportTickets.t;
  support_stats : SupportStats.t;
  saved_tickets : option SupportTickets.t;
  saved_stats : option SupportStats.t
}.

(** [load_support_tickets] when the file does not exist *)
Definition load_support_tickets : SupportTickets.t :=
  SupportTickets.mk [] 1 0 0.

(** [load_support_stats] when the file does not exist *)
Definition load_support_stats : SupportStats.t :=
  SupportStats.mk 0 0 0 0 ∅ ∅.

(** [__init__] on an empty data directory *)
Definition init (admins : list Z) : manager :=
  Manager admins load_support_tickets load_support_stats None None.

Definition save_support_tickets (m : manager) : manager :=
  Manager (admin_users m) (support_tickets m) (support_stats m)
          (Some (support_tickets m)) (saved_stats m).

Definition save_support_stats (m : manager) : manager :=
  Manager (admin_users m) (support_tickets m) (support_stats m)
          (saved_tickets m) (Some (support_stats m)).

Definition with_tickets (st : SupportTickets.t) (m : manager) : manager :=
  Manager (admin_users m) st (support_stats m) (saved_tickets m) (saved_stats m).

Definition with_stats (ss : SupportStats.t) (m : manager) : manager :=
  Manager (admin_users m) (support_tickets m) ss (saved_tickets m) (saved_stats m).

Definition tickets_of (m : manager) : list Ticket.t :=
  SupportTickets.tickets (support_tickets m).

(** [d[k] += 1] after [if k not in d: d[k] = 0] *)
Definition bump (k : string) (d : gmap string Z) : gmap string Z :=
  <[k := default 0 (d !! k) + 1]> d.

(** ** Lifecycle operations *)

(** The loop of [get_ticket_by_id]: the first ticket whose id matches,
    together with its position. *)
Definition find_ticket (ticket_id : Z) (tks : list Ticket.t)
  : option (nat * Ticket.t) :=
  list_find (λ tk, Ticket.id tk = ticket_id) tks.

Definition get_ticket_by_id (ticket_id : Z) (m : manager) : option Ticket.t :=
  snd <$> find_ticket ticket_id (tickets_of m).

Definition notify_admins_new_ticket (m : manager) (tk : Ticket.t)
  : list notification :=
  (λ a, NewTicket a (Ticket.id tk)) <$> admin_users m.

Definition create_support_ticket (now_created now_updated : Z) (today : string)
    (user_id : Z) (username category message : string) (m : manager)
  : Z * manager * list notification :=
  let st := support_tickets m in
  let ss := support_stats m in
  let ticket_id := SupportTickets.next_ticket_id st in
  let ticket :=
    Ticket.mk ticket_id user_id username category message "open" "medium"
              now_created now_updated [] None None None None None in
  let st' :=
    SupportTickets.mk (SupportTickets.tickets st ++ [ticket])
                      (SupportTickets.next_ticket_id st + 1)
                      (SupportTickets.active_tickets st + 1)
                      (SupportTickets.resolved_tickets st) in
  let ss' :=
    SupportStats.mk (SupportStats.total_tickets ss + 1)
                    (SupportStats.resolved_tickets ss)
                    (SupportStats.avg_response_time ss)
                    (SupportStats.customer_satisfaction ss)
                    (bump today (SupportStats.daily_tickets ss))
                    (bump category (SupportStats.category_stats ss)) in
  let m' := save_support_stats (save_support_tickets (with_stats ss' (with_tickets st' m))) in
  (ticket_id, m', notify_admins_new_ticket m' ticket).

Definition get_user_tickets (user_id : Z) (m : manager) : list Ticket.t :=
  filter (λ tk, Ticket.user_id tk = user_id) (tickets_of m).

(** Replace the ticket at position [i]; the counters are left alone. *)
Definition store_ticket (i : nat) (tk : Ticket.t) (st : SupportTickets.t)
  : SupportTickets.t :=
  SupportTickets.mk (<[i := tk]> (SupportTickets.tickets st))
                    (SupportTickets.next_ticket_id st)
                    (SupportTickets.active_tickets st)
                    (SupportTickets.resolved_tickets st).

Definition add_ticket_response (now_stamp now_updated : Z)
    (ticket_id responder_id : Z) (response : string) (is_admin : bool)
    (m : manager) : bool * manager * list notification :=
  match find_ticket ticket_id (tickets_of m) with
  | None => (false, m, [])
  | Some (i, ticket) =>
      let response_data :=
        Response.mk (Z.of_nat (length (Ticket.responses ticket)) + 1)
                    responder_id response is_admin now_stamp in
      let ticket' := Ticket.respond response_data now_updated ticket in
      let m' := save_support_tickets
                  (with_tickets (store_ticket i ticket' (support_tickets m)) m) in
      (true, m',
       if is_admin
       then [TicketResponse (Ticket.user_id ticket') (Ticket.id ticket')
                            (Response.id response_data)]
       else [])
  end.

Definition resolve_ticket (now : Z) (ticket_id : Z) (resolution : string)
    (admin_id : Z) (m : manager) : bool * manager * list notification :=
  match find_ticket ticket_id (tickets_of m) with
  | None => (false, m, [])
  | Some (i, ticket) =>
      let ticket' := Ticket.resolve resolution now admin_id ticket in
      let st := store_ticket i ticket' (support_tickets m) in
      let st' :=
        SupportTickets.mk (SupportTickets.tickets st)
                          (SupportTickets.next_ticket_id st)
                          (SupportTickets.active_tickets st - 1)
                          (SupportTickets.resolved_tickets st + 1) in
      let ss := support_stats m in
      let ss' :=
        SupportStats.mk (SupportStats.total_tickets ss)
                        (SupportStats.resolved_tickets ss + 1)
                        (SupportStats.avg_response_time ss)
                        (SupportStats.customer_satisfaction ss)
                        (SupportStats.daily_tickets ss)
                        (SupportStats.category_stats ss) in
      let m' := save_support_stats (save_support_tickets (with_stats ss' (with_tickets st' m))) in
      (true, m', [TicketResolved (Ticket.user_id ticket') (Ticket.id ticket')])
  end.

Definition update_ticket_status (now : Z) (ticket_id : Z) (new_status : string)
    (admin_id : Z) (message : option string) (m : manager)
  : bool * manager * list notification :=
  match find_ticket ticket_id (tickets_of m) with
  | None => (false, m, [])
  | Some (i, ticket) =>
      let old_status := Ticket.status ticket in
      let ticket' := Ticket.set_status new_status now admin_id ticket in
      let st := store_ticket i ticket' (support_tickets m) in
      let active := SupportTickets.active_tickets st in
      let active' :=
        if bool_decide (old_status = "open") && negb (bool_decide (new_status = "open"))
        then Z.max 0 (active - 1)
        else if negb (bool_decide (old_status = "open")) && bool_decide (new_status = "open")
        then active + 1
        else active in
      let st' :=
        SupportTickets.mk (SupportTickets.tickets st)
                          (SupportTickets.next_ticket_id st)
                          active'
                          (SupportTickets.resolved_tickets st) in
      let m' := save_support_stats (save_support_tickets (with_tickets st' m)) in
      (true, m',
       [StatusUpdate (Ticket.user_id ticket') (Ticket.id ticket') new_status message])
  end.

(** ** Escalation monitor *)

Definition escalate_ticket (now : Z) (ticket_id : Z) (m : manager)
  : manager * list notification :=
  match find_ticket ticket_id (tickets_of m) with
  | None => (m, [])
  | Some (i, ticket) =>
      let ticket' := Ticket.escalate now ticket in
      let m1 := with_tickets (store_ticket i ticket' (support_tickets m)) m in
      (save_support_tickets m1,
       (λ a, TicketEscalated a (Ticket.id ticket')) <$> admin_users m1)
  end.

(** [datetime.timedelta(hours=24)] in microseconds *)
Definition hours_24 : Z := 24 * 3600 * 1000000.

(** [open_tickets]: the references to the tickets that are open when the
    pass starts. *)
Fixpoint open_refs (from : nat) (tks : list Ticket.t) : list nat :=
  match tks with
  | [] => []
  | tk :: rest =>
      if bool_decide (Ticket.status tk = "open")
      then from :: open_refs (S from) rest
      else open_refs (S from) rest
  end.

(** The body of [for ticket in open_tickets], at its [k]-th iteration:
    [clock k] is the reading compared with [created_at], [stamp k] the one
    [escalate_ticket] takes.  The ticket is read through its reference, so
    a flag set earlier in the same pass is seen. *)
Definition monitor_visit (clock stamp : nat → Z) (k : nat) (ref : nat)
    (m : manager) : manager * list notification :=
  match tickets_of m !! ref with
  | None => (m, [])
  | Some ticket =>
      if bool_decide (clock k - Ticket.created_at ticket > hours_24)
      then if negb (default false (Ticket.escalated ticket))
           then escalate_ticket (stamp k) (Ticket.id ticket) m
           else (m, [])
      else (m, [])
  end.

Fixpoint monitor_loop (clock stamp : nat → Z) (k : nat) (refs : list nat)
    (m : manager) : manager * list notification :=
  match refs with
  | [] => (m, [])
  | ref :: rest =>
      let '(m1, out1) := monitor_visit clock stamp k ref m in
      let '(m2, out2) := monitor_loop clock stamp (S k) rest m1 in
      (m2, out1 ++ out2)
  end.

(** One turn of [while True] in [monitor_support], without the sleep. *)
Definition monitor_pass (clock stamp : nat → Z) (m : manager)
  : manager * list notification :=
  monitor_loop clock stamp 0 (open_refs 0 (tickets_of m)) m.

(** ** Auto-response classifier *)

(** [needle] is read off the front of [hay]. *)
Fixpoint starts_with (needle hay : string) : bool :=
  match needle, hay with
  | EmptyString, _ => true
  | String _ _, EmptyString => false
  | String a needle', String b hay' =>
      if bool_decide (a = b) then starts_with needle' hay' else false
  end.

(** [needle in hay] on Python strings: [needle] starts at some position of
    [hay]. *)
Fixpoint contains (needle hay : string) : bool :=
  starts_with needle hay ||
  match hay with
  | EmptyString => false
  | String _ rest => contains needle rest
  end.

Record auto_response := {
  keywords : list string;
  response : string
}.

Definition newline : string := String "010"%char EmptyString.

(** A text given line by line; the lines are separated by a line feed. *)
Fixpoint text (lines : list string) : string :=
  match lines with
  | [] => EmptyString
  | [l] => l
  | l :: rest => l +:+ newline +:+ text rest
  end.

Definition greeting : auto_response :=
  {| keywords :=
       ["hello"; "hi"; "hey"; "good morning"; "good afternoon";
        "good evening"; "namaste"; "salam"; "assalamu alaikum";
        "kemon achen"; "ki obostha"];
     response :=
       text [
         "👋 **Hello! Welcome to our support!**";
         EmptyString;
         "How can I help you today?";
         EmptyString;
         "**Quick Help:**";
         "• 📦 Order issues";
         "• 💳 Payment problems";
         "• 🛍️ Product questions";
         "• 🔧 Technical support";
         EmptyString;
         "Type your question or use /support for more options!" ] |}.

Definition order_status : auto_response :=
  {| keywords :=
       ["order"; "status"; "tracking"; "delivery"; "shipped";
        "where is my order"; "order kothay"; "delivery kobe hobe";
        "tracking number"];
     response :=
       text [
         "📦 **Order Status Help**";
         EmptyString;
         "To check your order status:";
         "1. Use /orders command";
         "2. Or click '📦 Orders' in main menu";
         "3. Enter your order ID for tracking";
         EmptyString;
         "Need more help? Create a support ticket!" ] |}.

Definition payment_help : auto_response :=
  {| keywords :=
       ["payment"; "pay"; "crypto"; "bitcoin"; "xmr"; "wallet"; "how to pay";
        "payment kivabe korbo"; "bitcoin address"; "monero address";
        "payment method"];
     response :=
       text [
         "💳 **Payment Help**";
         EmptyString;
         "We accept:";
         "• Bitcoin (BTC)";
         "• Monero (XMR)";
         EmptyString;
         "Payment process:";
         "1. Add items to cart";
         "2. Proceed to checkout";
         "3. Send exact amount to provided wallet";
         "4. Confirm payment";
         EmptyString;
         "Need help? Create a support ticket!" ] |}.

Definition product_info : auto_response :=
  {| keywords :=
       ["product"; "price"; "stock"; "available"; "quantity"; "product list";
        "ki ki ache"; "price koto"; "stock ache ki"; "product details"];
     response :=
       text [
         "🛍️ **Product Information**";
         EmptyString;
         "To view products:";
         "1. Click '🛍️ Products' in main menu";
         "2. Select your country";
         "3. Browse categories";
         "4. View product details";
         EmptyString;
         "Need specific info? Create a support ticket!" ] |}.

Definition shipping_delivery : auto_response :=
  {| keywords :=
       ["shipping"; "delivery"; "how long"; "delivery time"; "shipping cost";
        "delivery kobe hobe"; "shipping koto taka"; "delivery time koto"];
     response :=
       text [
         "🚚 **Shipping & Delivery**";
         EmptyString;
         "**Delivery Times:**";
         "• EU: 3-7 days";
         "• USA: 5-10 days";
         "• Worldwide: 7-14 days";
         EmptyString;
         "**Shipping Costs:**";
         "• Varies by country";
         "• Check delivery options at checkout";
         EmptyString;
         "Need specific info? Create a support ticket!" ] |}.

Definition refund_return : auto_response :=
  {| keywords :=
       ["refund"; "return"; "money back"; "refund chai"; "return korbo";
        "money back chai"];
     response :=
       text [
         "💰 **Refund & Return Policy**";
         EmptyString;
         "**Refund Policy:**";
         "• Contact support within 7 days";
         "• Provide order details";
         "• Refunds processed within 3-5 business days";
         EmptyString;
         "**Return Process:**";
         "• Create support ticket";
         "• Explain reason for return";
         "• Follow instructions from support team";
         EmptyString;
         "Need help? Create a support ticket!" ] |}.

Definition technical_issues : auto_response :=
  {| keywords :=
       ["error"; "bug"; "not working"; "problem"; "issue"; "broken"];
     response :=
       text [
         "🔧 **Technical Support**";
         EmptyString;
         "For technical issues:";
         "1. Try restarting your session (🔄 Restart Session)";
         "2. Clear your cart and try again";
         "3. If problem persists, create a support ticket";
         EmptyString;
         "We'll help you resolve it quickly!" ] |}.

Definition general_help : auto_response :=
  {| keywords :=
       ["help"; "how"; "what"; "where"; "when"];
     response :=
       text [
         "❓ **General Help**";
         EmptyString;
         "Quick help:";
         "• /start - Main menu";
         "• /orders - Check orders";
         "• /notifications - Manage notifications";
         "• /support - Get help";
         EmptyString;
         "For specific questions, create a support ticket!" ] |}.

(** [self.auto_responses]; a dict is iterated in insertion order. *)
Definition auto_responses : list (string * auto_response) :=
  [("greeting", greeting); ("order_status", order_status);
   ("payment_help", payment_help); ("product_info", product_info);
   ("shipping_delivery", shipping_delivery); ("refund_return", refund_return);
   ("technical_issues", technical_issues); ("general_help", general_help)].

Definition human_agent_keywords : list string :=
  ["human"; "agent"; "person"; "staff"; "representative";
   "manager"; "supervisor"; "live chat"; "real person";
   "talk to someone"; "speak to"; "connect me"; "transfer me"].

Definition key_map : list (string * string) :=
  [("greeting", "support.auto.greeting");
   ("order_status", "support.auto.order_status");
   ("payment_help", "support.auto.payment_help");
   ("product_info", "support.auto.product_info");
   ("shipping_delivery", "support.auto.shipping");
   ("refund_return", "support.auto.refund");
   ("technical_issues", "support.auto.technical");
   ("general_help", "support.auto.general")].

(** [d.get(k)] on a dict given as its items *)
Fixpoint dict_get (k : string) (d : list (string * string)) : option string :=
  match d with
  | [] => None
  | (k', v) :: rest => if bool_decide (k' = k) then Some v else dict_get k rest
  end.

(** Python truthiness of a string: [if key:] *)
Definition truthy (s : string) : bool :=
  match s with EmptyString => false | String _ _ => true end.

(** Some keyword of the list occurs in the text. *)
Definition mentions (kws : list string) (message_lower : string) : bool :=
  existsb (λ keyword, contains keyword message_lower) kws.

Section Classifier.

(** [str.lower]: Python's Unicode lower-casing.  Its tables are not part of
    the repository; the classifier is defined over any such function. *)
Variable lower : string → string.

(** The [try] block around the localized lookup, as a function of the
    template key: [Some s] when [t(lang, key)] returns [s], [None] when
    anything in the block raises ([from user_bot import ...],
    [load_users()], [normalize_lang], [t]); the modules [user_bot] and
    [language] are not part of the repository sources. *)
Variable localized : string → option string.

(** What is returned once a keyword of [category] has matched. *)
Definition matched (category : string) (data : auto_response) : string :=
  match dict_get category key_map with
  | Some key =>
      if truthy key
      then match localized key with
           | Some s => s
           | None => response data
           end
      else response data
  | None => response data
  end.

(** [for keyword in data['keywords']] *)
Fixpoint scan_keywords (category : string) (data : auto_response)
    (kws : list string) (message_lower : string) : option string :=
  match kws with
  | [] => None
  | keyword :: rest =>
      if contains keyword message_lower
      then Some (matched category data)
      else scan_keywords category data rest message_lower
  end.

(** [for category, data in self.auto_responses.items()] *)
Fixpoint scan_categories (table : list (string * auto_response))
    (message_lower : string) : option string :=
  match table with
  | [] => None
  | (category, data) :: rest =>
      match scan_keywords category data (keywords data) message_lower with
      | Some r => Some r
      | None => scan_categories rest message_lower
      end
  end.

Definition analyze_message_for_auto_response (message : string)
  : option string :=
  let message_lower := lower message in
  if mentions human_agent_keywords message_lower
  then None
  else scan_categories auto_responses message_lower.

End Classifier.

(** Lower-casing restricted to the letters A-Z, on which it agrees with
    [str.lower]; used to run the classifier on ASCII messages. *)
Definition lower_ascii (c : ascii) : ascii :=
  let n := nat_of_ascii c in
  if ((65 <=? n) && (n <=? 90))%nat then ascii_of_nat (n + 32) else c.

Fixpoint lower_ascii_string (s : string) : string :=
  match s with
  | EmptyString => EmptyString
  | String c rest => String (lower_ascii c) (lower_ascii_string rest)
  end.

(** The localized lookup when [user_bot] cannot be imported. *)
Definition no_localization : string → option string := λ _, None.

(** ** Histories of operations *)

(** A call from outside, or one turn of the monitor thread.  Turns of the
    monitor are taken as atomic with respect to the calls. *)
Inductive op :=
  | Create (now_created now_updated : Z) (today : string) (user_id : Z)
           (username category message : string)
  | AddResponse (now_stamp now_updated ticket_id responder_id : Z)
                (response : string) (is_admin : bool)
  | Resolve (now ticket_id : Z) (resolution : string) (admin_id : Z)
  | UpdateStatus (now ticket_id : Z) (new_status : string) (admin_id : Z)
                 (message : option string)
  | MonitorPass (clock stamp : nat → Z).

Inductive result :=
  | Created (ticket_id : Z)
  | Returned (ok : bool)
  | Passed.

Definition step (o : op) (m : manager) : result * manager * list notification :=
  match o with
  | Create t1 t2 today uid uname cat msg =>
      let '(tid, m', out) := create_support_ticket t1 t2 today uid uname cat msg m in
      (Created tid, m', out)
  | AddResponse t1 t2 tid rid resp adm =>
      let '(ok, m', out) := add_ticket_response t1 t2 tid rid resp adm m in
      (Returned ok, m', out)
  | Resolve t tid res aid =>
      let '(ok, m', out) := resolve_ticket t tid res aid m in
      (Returned ok, m', out)
  | UpdateStatus t tid st aid msg =>
      let '(ok, m', out) := update_ticket_status t tid st aid msg m in
      (Returned ok, m', out)
  | MonitorPass clock stamp =>
      let '(m', out) := monitor_pass clock stamp m in
      (Passed, m', out)
  end.

(** Run a history; the results and the messages come out in order. *)
Fixpoint run (ops : list op) (m : manager)
  : list result * manager * list notification :=
  match ops with
  | [] => ([], m, [])
  | o :: rest =>
      let '(r, m1, out1) := step o m in
      let '(rs, m2, out2) := run rest m1 in
      (r :: rs, m2, out1 ++ out2)
  end.

Definition state_after (ops : list op) (m : manager) : manager :=
  (run ops m).1.2.

Definition sent_during (ops : list op) (m : manager) : list notification :=
  (run ops m).2.

(** The states the manager can be in, started on an empty data directory. *)
Definition reachable (m : manager) : Prop :=
  ∃ admins ops, m = state_after ops (init admins).

(** [len([t for t in tickets if t['status'] == 'open'])] *)
Definition count_open (tks : list Ticket.t) : Z :=
  Z.of_nat (length (filter (λ tk, Ticket.status tk = "open") tks)).

Definition open_count (m : manager) : Z := count_open (tickets_of m).

(** What a ticket adds to the count. *)
Definition is_open (tk : Ticket.t) : Z :=
  if bool_decide (Ticket.status tk = "open") then 1 else 0.

(** The counter agrees with the collection. *)
Definition counted (m : manager) : Prop :=
  SupportTickets.active_tickets (support_tickets m) = open_count m.

(** The admins to whom an escalation alert about ticket [tid] is sent. *)
Fixpoint escalations_for (tid : Z) (out : list notification) : list Z :=
  match out with
  | [] => []
  | TicketEscalated a t :: rest =>
      if bool_decide (t = tid)
      then a :: escalations_for tid rest
      else escalations_for tid rest
  | _ :: rest => escalations_for tid rest
  end.

(** Ids are handed out in order: the ticket at position [i] has id [i + 1]
    and the next id follows the last one. *)
Definition sequential (m : manager) : Prop :=
  (∀ i tk, tickets_of m !! i = Some tk → Ticket.id tk = Z.of_nat i + 1) ∧
  SupportTickets.next_ticket_id (support_tickets m)
    = Z.of_nat (length (tickets_of m)) + 1.

(** ** Vocabulary of the properties *)

(** Whether the monitor escalates a ticket it visits at reading [now]. *)
Definition due (now : Z) (tk : Ticket.t) : bool :=
  bool_decide (now - Ticket.created_at tk > hours_24)
  && negb (default false (Ticket.escalated tk)).

Definition escalated_at (stamp : Z) (ref : nat) (tk : Ticket.t) (m : manager)
  : manager :=
  save_support_tickets
    (with_tickets (store_ticket ref (Ticket.escalate stamp tk) (support_tickets m)) m).

Definition is_create (o : op) : Prop :=
  match o with
  | Create _ _ _ _ _ _ _ => True
  | _ => False
  end.

(** The ids that a history of calls returned. *)
Definition created_ids (rs : list result) : list Z :=
  omap (λ r, match r with Created tid => Some tid | _ => None end) rs.

Definition results_of (ops : list op) (m : manager) : list result :=
  (run ops m).1.1.

(** Two tickets agree on every key but [responses] and [updated_at]. *)
Definition same_but_responses (tk tk' : Ticket.t) : Prop :=
  Ticket.id tk' = Ticket.id tk ∧
  Ticket.user_id tk' = Ticket.user_id tk ∧
  Ticket.username tk' = Ticket.username tk ∧
  Ticket.category tk' = Ticket.category tk ∧
  Ticket.message tk' = Ticket.message tk ∧
  Ticket.status tk' = Ticket.status tk ∧
  Ticket.priority tk' = Ticket.priority tk ∧
  Ticket.created_at tk' = Ticket.created_at tk ∧
  Ticket.assigned_to tk' = Ticket.assigned_to tk ∧
  Ticket.resolution tk' = Ticket.resolution tk ∧
  Ticket.resolved_by tk' = Ticket.resolved_by tk ∧
  Ticket.updated_by tk' = Ticket.updated_by tk ∧
  Ticket.escalated tk' = Ticket.escalated tk.

(** ** Sample inputs *)

(** The scenario of the specification: a ticket is created by user 42 and
    then resolved by admin 7. *)
Definition alice_creates : op :=
  Create 1000 1001 "2025-01-01" 42 "alice" "Payment Problems"
         "my btc payment failed".

Definition admin_resolves (now : Z) : op := Resolve now 1 "refunded" 7.

(** A clock that reads more than 24 hours after the ticket of the scenario
    was created. *)
Definition day_later : nat → Z := λ _, 1000 + hours_24 + 1.

(** * The rest of the two files

    The statistics, the message and callback handlers of
    [src/customer_support.py] and the review manager of
    [src/review_manager.py], on the same conventions, and:
    - a float is never computed: it is kept as the integers it is computed
      from ([rounded_hours], [average_rating]);
    - [len(text)] is [String.length]: a text is a sequence of characters,
      one per character of the string;
    - a call that can raise [KeyError] returns an [outcome], together with
      the state it has reached when it raises;
    - what the handlers show or send through the bot is returned as a list;
      the texts are represented by what they are about, localized labels by
      their template key; failures of the bot itself are not represented;
    - dicts of other modules that a handler only reads ([user_states] in
      [handle_support_message]) are read through an argument. *)

(** ** Statistics *)

(** [round(avg_response_time, 2)] in [get_support_statistics] is a float.
    It is kept as the integers it is computed from: with no resolved ticket
    it is the integer 0; otherwise it is the rounded average of the
    durations [updated_at - created_at] (microseconds here) of the resolved
    tickets that have a response, summed in list order and divided by the
    number of resolved tickets and by 3600. *)
Inductive rounded_hours :=
  | ZeroHours
  | AverageHours (durations : list Z) (resolved_tickets : Z).

Module Statistics.
Record t := mk {
  total_tickets : Z;
  open_tickets : Z;
  resolved_tickets : Z;
  avg_response_time_hours : rounded_hours;
  category_stats : gmap string Z;
  daily_tickets : gmap string Z;
  auto_responses_enabled : bool
}.
End Statistics.

(** The durations added to [total_time] by the loop of
    [get_support_statistics]. *)
Fixpoint response_durations (tks : list Ticket.t) : list Z :=
  match tks with
  | [] => []
  | ticket :: rest =>
      if bool_decide (Ticket.status ticket = "resolved")
         && bool_decide (Z.of_nat (length (Ticket.responses ticket)) > 0)
      then (Ticket.updated_at ticket - Ticket.created_at ticket)
             :: response_durations rest
      else response_durations rest
  end.

(** [get_support_statistics].  [self.support_responses] is loaded when the
    manager starts and never written by it; its flag is an argument. *)
Definition get_support_statistics (auto_responses_enabled : bool)
    (m : manager) : Statistics.t :=
  let tks := tickets_of m in
  let total_tickets := Z.of_nat (length tks) in
  let open_tickets :=
    Z.of_nat (length (filter (λ tk, Ticket.status tk = "open") tks)) in
  let resolved_tickets :=
    Z.of_nat (length (filter (λ tk, Ticket.status tk = "resolved") tks)) in
  let avg_response_time :=
    if bool_decide (resolved_tickets > 0)
    then AverageHours (response_durations tks) resolved_tickets
    else ZeroHours in
  Statistics.mk total_tickets open_tickets resolved_tickets avg_response_time
                (SupportStats.category_stats (support_stats m))
                (SupportStats.daily_tickets (support_stats m))
                auto_responses_enabled.

(** ** How a ticket changes *)

(** The four ways in which the manager changes a ticket it holds. *)
Inductive mutation : Ticket.t → Ticket.t → Prop :=
  | mutation_respond tk rid resp adm stamp now :
      mutation tk
        (Ticket.respond
           (Response.mk (Z.of_nat (length (Ticket.responses tk)) + 1)
                        rid resp adm stamp) now tk)
  | mutation_resolve tk res now aid :
      mutation tk (Ticket.resolve res now aid tk)
  | mutation_set_status tk st now aid :
      mutation tk (Ticket.set_status st now aid tk)
  | mutation_escalate tk now :
      mutation tk (Ticket.escalate now tk).

(** A ticket as it is after any number of changes. *)
Definition evolved : Ticket.t → Ticket.t → Prop := rtc mutation.

(** A ticket as [create_support_ticket] builds it. *)
Definition fresh (tk : Ticket.t) : Prop :=
  Ticket.status tk = "open" ∧ Ticket.priority tk = "medium" ∧
  Ticket.responses tk = [] ∧ Ticket.assigned_to tk = None ∧
  Ticket.resolution tk = None ∧ Ticket.resolved_by tk = None ∧
  Ticket.updated_by tk = None ∧ Ticket.escalated tk = None.

(** The keys of a ticket that no operation writes. *)
Definition same_core (tk tk' : Ticket.t) : Prop :=
  Ticket.id tk' = Ticket.id tk ∧
  Ticket.user_id tk' = Ticket.user_id tk ∧
  Ticket.username tk' = Ticket.username tk ∧
  Ticket.category tk' = Ticket.category tk ∧
  Ticket.message tk' = Ticket.message tk ∧
  Ticket.created_at tk' = Ticket.created_at tk ∧
  Ticket.assigned_to tk' = Ticket.assigned_to tk.

(** The responses of a ticket are numbered 1, 2, 3, ... *)
Definition responses_numbered (tk : Ticket.t) : Prop :=
  ∀ j r, Ticket.responses tk !! j = Some r → Response.id r = Z.of_nat j + 1.

(** Priority and flag go together. *)
Definition priority_matches_flag (tk : Ticket.t) : Prop :=
  (Ticket.priority tk = "medium" ∧ Ticket.escalated tk = None) ∨
  (Ticket.priority tk = "high" ∧ Ticket.escalated tk = Some true).

(** Two tickets agree on every key but [priority], [escalated] and
    [updated_at]. *)
Definition same_but_escalation (tk tk' : Ticket.t) : Prop :=
  same_core tk tk' ∧
  Ticket.status tk' = Ticket.status tk ∧
  Ticket.responses tk' = Ticket.responses tk ∧
  Ticket.resolution tk' = Ticket.resolution tk ∧
  Ticket.resolved_by tk' = Ticket.resolved_by tk ∧
  Ticket.updated_by tk' = Ticket.updated_by tk.

Definition count_category (c : string) (tks : list Ticket.t) : Z :=
  Z.of_nat (length (filter (λ tk, Ticket.category tk = c) tks)).

(** Every [resolve_ticket] of the history is called on an id that is
    unknown or on a ticket that is open at that moment. *)
Fixpoint resolves_open_only (ops : list op) (m : manager) : Prop :=
  match ops with
  | [] => True
  | o :: rest =>
      match o with
      | Resolve _ tid _ _ =>
          match get_ticket_by_id tid m with
          | Some tk => Ticket.status tk = "open"
          | None => True
          end
      | _ => True
      end ∧ resolves_open_only rest (step o m).1.2
  end.

(** A ticket that was created by the manager and changed by it since. *)
Definition born (tk : Ticket.t) : Prop :=
  ∃ tk0, fresh tk0 ∧ evolved tk0 tk.

(** The tickets of [m'] are those of [m], each possibly changed, followed by
    tickets created since. *)
Definition grown (m m' : manager) : Prop :=
  ∃ old new, tickets_of m' = old ++ new ∧
             Forall2 evolved (tickets_of m) old ∧ Forall born new.

(** The sum of the counts of a [{key: count}] dict. *)
Definition sum_counts (d : gmap string Z) : Z :=
  map_fold (λ _ v acc, v + acc) 0 d.

(** What the stats document says about the collection. *)
Definition stats_follow (m : manager) : Prop :=
  SupportStats.total_tickets (support_stats m)
    = Z.of_nat (length (tickets_of m)) ∧
  (∀ c, default 0 (SupportStats.category_stats (support_stats m) !! c)
        = count_category c (tickets_of m)) ∧
  sum_counts (SupportStats.daily_tickets (support_stats m))
    = Z.of_nat (length (tickets_of m)) ∧
  SupportStats.resolved_tickets (support_stats m)
    = SupportTickets.resolved_tickets (support_tickets m).

(** What a monitor pass may change: the saved ticket document and, in
    tickets, the keys [priority], [escalated] and [updated_at]. *)
Definition monitor_frame (m m' : manager) : Prop :=
  admin_users m' = admin_users m ∧
  support_stats m' = support_stats m ∧
  saved_stats m' = saved_stats m ∧
  SupportTickets.next_ticket_id (support_tickets m')
    = SupportTickets.next_ticket_id (support_tickets m) ∧
  SupportTickets.active_tickets (support_tickets m')
    = SupportTickets.active_tickets (support_tickets m) ∧
  SupportTickets.resolved_tickets (support_tickets m')
    = SupportTickets.resolved_tickets (support_tickets m) ∧
  Forall2 same_but_escalation (tickets_of m) (tickets_of m').

(** ** The message handler *)

(** [support_states[user_id]]: the session opened by choosing a category. *)
Module Session.
Record t := mk {
  action : string;
  category : string
}.
End Session.

(** What the handler answers with [bot.reply_to]. *)
Inductive reply :=
  | TicketCreationCancelled
  | TicketCreated (ticket_id : Z) (category : string)
  | HumanAgentRequestReceived
  | AutoResponse (text : string)
  | TicketSuggestion (quoted : string)
  | ShortGreeting.

(** What the handlers hand to the bot. *)
Inductive sent :=
  | Notified (n : notification)
  | HumanAgentRequest (admin_id user_id : Z) (username message : string)
  | Replied (r : reply).

(** The manager together with the module-level dict [support_states]. *)
Record support_world := SupportWorld {
  manager_of : manager;
  support_states : gmap Z Session.t
}.

(** [message.from_user.username or "Unknown"] *)
Definition username_or (fallback : string) (username : option string) : string :=
  match username with
  | Some s => if truthy s then s else fallback
  | None => fallback
  end.

(** [text[:n]] *)
Fixpoint str_take (n : nat) (s : string) : string :=
  match n, s with
  | S n', String c rest => String c (str_take n' rest)
  | _, _ => EmptyString
  end.

(** [f"{text[:n]}{'...' if len(text) > n else ''}"] *)
Definition ellipsis (n : nat) (text : string) : string :=
  str_take n text +:+ (if bool_decide (n < String.length text)%nat
                       then "..." else EmptyString).

(** The keywords of [handle_support_message]: those of the manager and
    four more. *)
Definition handler_human_agent_keywords : list string :=
  ["human"; "agent"; "person"; "staff"; "representative";
   "manager"; "supervisor"; "live chat"; "real person";
   "talk to someone"; "speak to"; "connect me"; "transfer me";
   "ami human er sathe kotha bolte chai"; "human agent chai";
   "staff er sathe kotha bolte hobe"; "manager er sathe kotha"].

Definition notify_admins_human_agent_request (user_id : Z)
    (username message : string) (m : manager) : list sent :=
  (λ a, HumanAgentRequest a user_id username message) <$> admin_users m.

(** The filter under which [handle_support_message] is registered;
    [message.text] is [None] for a message without text. *)
Definition support_message_filter (text : option string) : bool :=
  match text with
  | None => false
  | Some s => truthy s && negb (starts_with "/" s) && negb (starts_with "admin" s)
  end.

Section Handlers.

Variable lower : string → string.
Variable localized : string → option string.

(** The end of [handle_support_message], once no automatic answer was
    found. *)
Definition suggest_ticket (text : string) : reply :=
  if bool_decide (3 < String.length text)%nat
  then TicketSuggestion (ellipsis 100 text)
  else ShortGreeting.

(** [handle_support_message] outside a ticket-creation session.
    [transactional] tells whether the [try] block that looks at the user
    bot's own [user_states] returns: the user is in one of its waiting
    states. *)
Definition answer_message (transactional : bool) (user_id : Z)
    (username text : string) (m : manager) : list sent :=
  if transactional then []
  else
    let message_lower := lower text in
    if mentions handler_human_agent_keywords message_lower
    then notify_admins_human_agent_request user_id username text m
           ++ [Replied HumanAgentRequestReceived]
    else
      match analyze_message_for_auto_response lower localized text with
      | Some auto_response =>
          if truthy auto_response
          then [Replied (AutoResponse auto_response)]
          else [Replied (suggest_ticket text)]
      | None => [Replied (suggest_ticket text)]
      end.

(** [handle_support_message].  The three clock readings are those of
    [create_support_ticket]. *)
Definition handle_support_message (now_created now_updated : Z)
    (today : string) (transactional : bool) (user_id : Z)
    (from_username : option string) (text : string) (w : support_world)
  : support_world * list sent :=
  let username := username_or "Unknown" from_username in
  let outside := (w, answer_message transactional user_id username text
                       (manager_of w)) in
  match support_states w !! user_id with
  | Some state =>
      if bool_decide (Session.action state = "creating_ticket")
      then
        if bool_decide (lower text ∈ ["cancel"; "stop"; "exit"])
        then (SupportWorld (manager_of w) (delete user_id (support_states w)),
              [Replied TicketCreationCancelled])
        else
          let '(ticket_id, m', out) :=
            create_support_ticket now_created now_updated today user_id
              username (Session.category state) text (manager_of w) in
          (SupportWorld m' (delete user_id (support_states w)),
           (Notified <$> out)
             ++ [Replied (TicketCreated ticket_id (Session.category state))])
      else outside
  | None => outside
  end.

End Handlers.

(** The replies among what was sent. *)
Definition replies (out : list sent) : list reply :=
  omap (λ s, match s with Replied r => Some r | _ => None end) out.

(** ** The callback handler *)

(** [s.replace(old, new)] for a non-empty [old]: the occurrences of [old]
    are replaced from left to right and do not overlap; [skip] counts the
    characters of an occurrence still to be passed over. *)
Fixpoint str_replace_from (old new : string) (skip : nat) (s : string)
  : string :=
  match s with
  | EmptyString => EmptyString
  | String c rest =>
      match skip with
      | S k => str_replace_from old new k rest
      | O =>
          if starts_with old s
          then new +:+ str_replace_from old new (String.length old - 1) rest
          else String c (str_replace_from old new 0 rest)
      end
  end.

Definition str_replace (old new s : string) : string :=
  str_replace_from old new 0 s.

(** [l[-n:]] *)
Definition last_n {A} (n : nat) (l : list A) : list A :=
  drop (length l - n) l.

Definition support_categories : list string :=
  ["Order Issues"; "Payment Problems"; "Product Questions";
   "Technical Support"; "Account Issues"; "General Inquiry"].

(** The text on a button: a literal, a localized template [t(lang, key)],
    or a localized template filled with a count. *)
Inductive label :=
  | Literal (s : string)
  | Localized (key : string)
  | LocalizedCount (key : string) (count : nat).

Record button := Button {
  button_label : label;
  callback_data : string
}.

Definition create_support_menu (user_id : Z) (m : manager) : list button :=
  let user_tickets := get_user_tickets user_id m in
  let open_tickets := filter (λ tk, Ticket.status tk = "open") user_tickets in
  [Button (Localized "support.menu.create") "support_create_ticket";
   Button (LocalizedCount "support.menu.my" (length open_tickets))
          "support_my_tickets";
   Button (Localized "support.menu.faq") "support_faq";
   Button (Localized "support.menu.human") "support_human_agent";
   Button (Localized "support.menu.back") "support_menu"].

Definition create_support_category_menu : list button :=
  ((λ category, Button (Literal category) ("support_category_" +:+ category))
     <$> support_categories)
  ++ [Button (Literal "🔙 Back to Support") "support_menu"].

(** A line of the list of tickets: the marker, the id, the category and
    the status. *)
Record ticket_line := TicketLine {
  line_open : bool;
  line_id : Z;
  line_category : string;
  line_status : string
}.

(** The texts that [support_callback_handler] puts on the screen. *)
Inductive screen :=
  | SupportMenuScreen
  | CreateTicketScreen
  | CategoryPrompt (category : string)
  | NoTicketsScreen
  | MyTicketsScreen (total : nat) (lines : list ticket_line) (more : option nat)
  | FaqScreen
  | LiveChatScreen
  | HumanAgentScreen.

(** What [support_callback_handler] hands to the bot. *)
Inductive shown :=
  | Edited (text : screen) (markup : list button)
  | Requested (s : sent)
  | Answered.

Definition my_tickets_screen (user_tickets : list Ticket.t) : screen :=
  MyTicketsScreen
    (length user_tickets)
    ((λ ticket, TicketLine (bool_decide (Ticket.status ticket = "open"))
                           (Ticket.id ticket) (Ticket.category ticket)
                           (Ticket.status ticket))
       <$> last_n 5 user_tickets)
    (if bool_decide (5 < length user_tickets)%nat
     then Some (length user_tickets - 5)%nat else None).

(** The filter under which [support_callback_handler] is registered. *)
Definition support_callback_filter (data : string) : bool :=
  starts_with "support_" data.

Definition support_callback_handler (user_id : Z)
    (from_username : option string) (data : string) (w : support_world)
  : support_world * list shown :=
  let username := username_or "Unknown" from_username in
  let m := manager_of w in
  let '(w', out) :=
    if bool_decide (data = "support_menu")
    then (w, [Edited SupportMenuScreen (create_support_menu user_id m)])
    else if bool_decide (data = "support_create_ticket")
    then (w, [Edited CreateTicketScreen create_support_category_menu])
    else if starts_with "support_category_" data
    then
      let category := str_replace "support_category_" EmptyString data in
      (SupportWorld m (<[user_id := Session.mk "creating_ticket" category]>
                         (support_states w)),
       [Edited (CategoryPrompt category) []])
    else if bool_decide (data = "support_my_tickets")
    then
      let user_tickets := get_user_tickets user_id m in
      match user_tickets with
      | [] =>
          (w, [Edited NoTicketsScreen
                 [Button (Literal "📝 Create Ticket") "support_create_ticket";
                  Button (Literal "🔙 Back to Support") "support_menu"]])
      | _ :: _ =>
          (w, [Edited (my_tickets_screen user_tickets)
                 [Button (Localized "support.menu.create") "support_create_ticket";
                  Button (Localized "support.menu.back") "support_menu"]])
      end
    else if bool_decide (data = "support_faq")
    then (w, [Edited FaqScreen
                [Button (Localized "support.buttons.create") "support_create_ticket";
                 Button (Localized "support.buttons.back_support") "support_menu"]])
    else if bool_decide (data = "support_live_chat")
    then (w, [Edited LiveChatScreen
                [Button (Literal "📝 Create Support Ticket") "support_create_ticket";
                 Button (Literal "🔙 Back to Support") "support_menu"]])
    else if bool_decide (data = "support_human_agent")
    then (w, (Requested <$>
                notify_admins_human_agent_request user_id username
                  "User requested human agent via support menu" m)
             ++ [Edited HumanAgentScreen
                   [Button (Localized "support.buttons.create") "support_create_ticket";
                    Button (Localized "support.buttons.faq") "support_faq";
                    Button (Localized "support.buttons.back_support") "support_menu"]])
    else (w, []) in
  (w', out ++ [Answered]).

(** The buttons of the screens among what was shown. *)
Fixpoint buttons_shown (out : list shown) : list button :=
  match out with
  | [] => []
  | Edited _ markup :: rest => markup ++ buttons_shown rest
  | _ :: rest => buttons_shown rest
  end.

(** The callback data that the support screens put on their buttons,
    category buttons apart. *)
Definition menu_callbacks : list string :=
  ["support_create_ticket"; "support_my_tickets"; "support_faq";
   "support_human_agent"; "support_menu"].

(** ** The review manager ([src/review_manager.py]) *)

Module Review.
Record t := mk {
  id : Z;
  user_id : Z;
  username : string;
  rating : Z;
  comment : string;
  order_id : option Z;
  verified_purchase : bool;
  date : Z;
  likes : Z;
  helpful_count : Z
}.
End Review.

(** [statistics['average_rating']] is a float.  It is kept as the integers
    it is computed from: the 5.0 of an empty store, or
    [round(total_ratings / total_reviews, 1)]. *)
Inductive average_rating :=
  | FiveStars
  | RoundedMean (total_ratings total_reviews : Z).

(** [data/reviews.json].  The keys of [rating_distribution] are the strings
    [str(rating)]; a key is represented by the integer it prints. *)
Module Reviews.
Record t := mk {
  reviews : list Review.t;
  total_reviews : Z;
  average : average_rating;
  rating_distribution : gmap Z Z;
  verified_reviews : Z;
  featured_reviews : list Z
}.
End Reviews.

(** The review manager: the document in memory and the saved one. *)
Record review_manager := ReviewManager {
  reviews_of : Reviews.t;
  saved_reviews : option Reviews.t
}.

(** A call returns a value or raises [KeyError]. *)
Inductive outcome (A : Type) :=
  | Ok (a : A)
  | KeyError.
Arguments Ok {A} a.
Arguments KeyError {A}.

(** [load_reviews] when the file does not exist *)
Definition load_reviews : Reviews.t :=
  Reviews.mk [] 0 FiveStars
             (<[5 := 0]> (<[4 := 0]> (<[3 := 0]> (<[2 := 0]> (<[1 := 0]> ∅)))))
             0 [].

Definition init_reviews : review_manager := ReviewManager load_reviews None.

Definition save_reviews (rm : review_manager) : review_manager :=
  ReviewManager (reviews_of rm) (Some (reviews_of rm)).

(** [sum(int(k) * v for k, v in d.items())] *)
Definition weighted_sum (d : gmap Z Z) : Z :=
  map_fold (λ k v acc, k * v + acc) 0 d.

(** [sum(d.values())] *)
Definition sum_values (d : gmap Z Z) : Z :=
  map_fold (λ _ v acc, v + acc) 0 d.

(** Python truthiness of [order_id], an integer or [None] *)
Definition order_id_truthy (order_id : option Z) : bool :=
  match order_id with
  | Some z => negb (bool_decide (z = 0))
  | None => false
  end.

(** [add_review].  The review is appended and [total_reviews] is
    incremented before [rating_distribution[str(rating)] += 1] can raise;
    nothing is saved then. *)
Definition add_review (now : Z) (user_id : Z) (username : string) (rating : Z)
    (comment : string) (order_id : option Z) (rm : review_manager)
  : outcome Z * review_manager :=
  let d := reviews_of rm in
  let review :=
    Review.mk (Z.of_nat (length (Reviews.reviews d)) + 1) user_id username
              rating comment order_id (bool_decide (is_Some order_id)) now 0 0 in
  let reviews' := Reviews.reviews d ++ [review] in
  let total' := Reviews.total_reviews d + 1 in
  match Reviews.rating_distribution d !! rating with
  | None =>
      (KeyError,
       ReviewManager
         (Reviews.mk reviews' total' (Reviews.average d)
                     (Reviews.rating_distribution d)
                     (Reviews.verified_reviews d) (Reviews.featured_reviews d))
         (saved_reviews rm))
  | Some n =>
      let dist' := <[rating := n + 1]> (Reviews.rating_distribution d) in
      let total_ratings := weighted_sum dist' in
      let total_reviews := sum_values dist' in
      let average' :=
        if bool_decide (total_reviews > 0)
        then RoundedMean total_ratings total_reviews
        else FiveStars in
      let verified' :=
        if order_id_truthy order_id
        then Reviews.verified_reviews d + 1
        else Reviews.verified_reviews d in
      let featured' :=
        if bool_decide (4 ≤ rating) && bool_decide (20 < String.length comment)%nat
        then if bool_decide (length (Reviews.featured_reviews d) < 5)%nat
             then Reviews.featured_reviews d ++ [Review.id review]
             else Reviews.featured_reviews d
        else Reviews.featured_reviews d in
      (Ok (Review.id review),
       save_reviews
         (ReviewManager
            (Reviews.mk reviews' total' average' dist' verified' featured')
            (saved_reviews rm)))
  end.

Definition get_user_reviews (user_id : Z) (rm : review_manager)
  : list Review.t :=
  filter (λ r, Review.user_id r = user_id) (Reviews.reviews (reviews_of rm)).

Definition get_review_by_id (review_id : Z) (rm : review_manager)
  : option Review.t :=
  snd <$> list_find (λ r, Review.id r = review_id)
                    (Reviews.reviews (reviews_of rm)).

(** [l.remove(x)]: the first occurrence goes. *)
Fixpoint list_remove_first (x : Z) (l : list Z) : list Z :=
  match l with
  | [] => []
  | y :: rest => if bool_decide (y = x) then rest else y :: list_remove_first x rest
  end.

(** [delete_review].  The list is filtered and [total_reviews] is
    decremented before [rating_distribution[str(rating)] -= 1] can raise;
    nothing is saved then. *)
Definition delete_review (review_id : Z) (rm : review_manager)
  : outcome bool * review_manager :=
  let d := reviews_of rm in
  match get_review_by_id review_id rm with
  | None => (Ok false, rm)
  | Some review =>
      let reviews' := filter (λ r, Review.id r ≠ review_id) (Reviews.reviews d) in
      let total' := Reviews.total_reviews d - 1 in
      match Reviews.rating_distribution d !! Review.rating review with
      | None =>
          (KeyError,
           ReviewManager
             (Reviews.mk reviews' total' (Reviews.average d)
                         (Reviews.rating_distribution d)
                         (Reviews.verified_reviews d)
                         (Reviews.featured_reviews d))
             (saved_reviews rm))
      | Some n =>
          let dist' :=
            <[Review.rating review := n - 1]> (Reviews.rating_distribution d) in
          let verified' :=
            if Review.verified_purchase review
            then Reviews.verified_reviews d - 1
            else Reviews.verified_reviews d in
          let featured' :=
            if bool_decide (Review.id review ∈ Reviews.featured_reviews d)
            then list_remove_first (Review.id review) (Reviews.featured_reviews d)
            else Reviews.featured_reviews d in
          (Ok true,
           save_reviews
             (ReviewManager
                (Reviews.mk reviews' total' (Reviews.average d) dist'
                            verified' featured')
                (saved_reviews rm)))
      end
  end.

(** A call to the review manager. *)
Inductive review_op :=
  | AddReview (now user_id : Z) (username : string) (rating : Z)
              (comment : string) (order_id : option Z)
  | DeleteReview (review_id : Z).

Definition review_step (o : review_op) (rm : review_manager) : review_manager :=
  match o with
  | AddReview now uid uname rating comment oid =>
      (add_review now uid uname rating comment oid rm).2
  | DeleteReview rid => (delete_review rid rm).2
  end.

(** The state after a history of calls; a call that raised leaves the
    state it had reached. *)
Definition reviews_after (ops : list review_op) (rm : review_manager)
  : review_manager :=
  foldl (λ s o, review_step o s) rm ops.

Definition count_rating (r : Z) (l : list Review.t) : Z :=
  Z.of_nat (length (filter (λ x, Review.rating x = r) l)).

Definition valid_rating (r : Z) : Prop := 1 ≤ r ≤ 5.


(** What the counters of the review document say about its list. *)
Definition reviews_consistent (d : Reviews.t) : Prop :=
  (∀ i r, Reviews.reviews d !! i = Some r → Review.id r = Z.of_nat i + 1) ∧
  Reviews.total_reviews d = Z.of_nat (length (Reviews.reviews d)) ∧
  (∀ r, default 0 (Reviews.rating_distribution d !! r)
        = count_rating r (Reviews.reviews d)) ∧
  dom (Reviews.rating_distribution d) = {[1; 2; 3; 4; 5]} ∧
  Reviews.verified_reviews d
    = Z.of_nat (length (filter (λ x, order_id_truthy (Review.order_id x) = true)
                               (Reviews.reviews d))) ∧
  (∀ f, f ∈ Reviews.featured_reviews d →
        ∃ r, r ∈ Reviews.reviews d ∧ Review.id r = f ∧ 4 ≤ Review.rating r ∧
             (20 < String.length (Review.comment r))%nat).

(** ** The review comment handler *)

(** [user_states[user_id]], the keys that the review handlers use; [None]
    is a key that is absent. *)
Module UserState.
Record t := mk {
  action : option string;
  step : option string;
  rating : option Z
}.
End UserState.


(** The filter under which [handle_review_comment] is registered. *)
Definition review_comment_filter (user_id : Z)
    (user_states : gmap Z UserState.t) : bool :=
  match user_states !! user_id with
  | Some state =>
      bool_decide (UserState.action state = Some "writing_review")
      && bool_decide (UserState.step state = Some "comment")
  | None => false
  end.


(** The ticket of the scenario once an admin has answered it. *)
Definition alice_answered : Ticket.t :=
  Ticket.mk 1 42 "alice" "Payment Problems" "my btc payment failed"
            "open" "medium" 1000 1501
            [Response.mk 1 7 "looking into it" true 1500]
            None None None None None.

Definition admin_answers : op :=
  AddResponse 1500 1501 1 7 "looking into it" true.

(** Settle the tests of the handler on callback data that is given. *)
Ltac decide_data :=
  repeat first
    [ rewrite bool_decide_eq_true_2 by done
    | rewrite bool_decide_eq_false_2 by done
    | match goal with
      | |- context [starts_with ?p ?d] =>
          let b := eval vm_compute in (starts_with p d) in
          change (starts_with p d) with b
      end ].

(** * Properties *)

(** ** Lookup *)

Lemma find_ticket_Some tid tks i tk :
  find_ticket tid tks = Some (i, tk) →
  tks !! i = Some tk ∧ Ticket.id tk = tid.
Proof.
  unfold find_ticket. intros H.
  apply list_find_Some in H. tauto.
Qed.

Lemma find_ticket_None tid tks :
  find_ticket tid tks = None ↔ ∀ tk, tk ∈ tks → Ticket.id tk ≠ tid.
Proof.
  unfold find_ticket. rewrite list_find_None, Forall_forall. reflexivity.
Qed.

Lemma find_ticket_present tid tks tk :
  tk ∈ tks → Ticket.id tk = tid → is_Some (find_ticket tid tks).
Proof.
  intros Hin Hid.
  destruct (find_ticket tid tks) as [p|] eqn:E; [eauto|].
  rewrite find_ticket_None in E. destruct (E tk Hin Hid).
Qed.

(** With ids in order, the lookup by a ticket's own id gives back this very
    ticket: a reference and an id denote the same ticket. *)
Lemma find_ticket_sequential m i tk :
  sequential m →
  tickets_of m !! i = Some tk →
  find_ticket (Ticket.id tk) (tickets_of m) = Some (i, tk).
Proof.
  intros [Hseq _] Hi. unfold find_ticket.
  apply list_find_Some. split; [exact Hi|]. split; [reflexivity|].
  intros j y Hj Hlt Heq.
  apply Hseq in Hj. apply Hseq in Hi. lia.
Qed.

Lemma get_ticket_by_id_Some tid m tk :
  get_ticket_by_id tid m = Some tk →
  ∃ i, find_ticket tid (tickets_of m) = Some (i, tk).
Proof.
  unfold get_ticket_by_id.
  destruct (find_ticket tid (tickets_of m)) as [[i tk']|]; simpl; [|discriminate].
  intros [= ->]. eauto.
Qed.

(** ** Ids stay in order *)

Lemma sequential_init admins : sequential (init admins).
Proof.
  split; [|reflexivity].
  intros i tk H. destruct i; discriminate H.
Qed.

(** An update in place that keeps the id keeps the ids in order. *)
Lemma sequential_update m m' i tk tk' :
  sequential m →
  tickets_of m !! i = Some tk →
  Ticket.id tk' = Ticket.id tk →
  tickets_of m' = <[i := tk']> (tickets_of m) →
  SupportTickets.next_ticket_id (support_tickets m')
    = SupportTickets.next_ticket_id (support_tickets m) →
  sequential m'.
Proof.
  intros [Hseq Hnext] Hi Hid Htks Hn. split.
  - intros j y Hj. rewrite Htks in Hj.
    destruct (decide (i = j)) as [<-|Hne].
    + rewrite list_lookup_insert_eq in Hj by (eapply lookup_lt_Some; eauto).
      injection Hj as <-. rewrite Hid. eauto.
    + rewrite list_lookup_insert_ne in Hj by done. eauto.
  - rewrite Hn, Hnext, Htks, length_insert. reflexivity.
Qed.

Lemma create_sequential t1 t2 today uid uname cat msg m :
  sequential m →
  sequential (create_support_ticket t1 t2 today uid uname cat msg m).1.2.
Proof.
  intros [Hseq Hnext]. split; simpl.
  - intros i tk Hi. unfold tickets_of in *. simpl in Hi.
    apply lookup_app_Some in Hi as [Hi|[Hlen Hi]]; [eauto|].
    apply list_lookup_singleton_Some in Hi as [Hz <-]. simpl.
    rewrite Hnext. lia.
  - unfold tickets_of in *. simpl. rewrite length_app. simpl. lia.
Qed.

Lemma add_ticket_response_sequential t1 t2 tid rid resp adm m :
  sequential m →
  sequential (add_ticket_response t1 t2 tid rid resp adm m).1.2.
Proof.
  intros Hs. unfold add_ticket_response.
  destruct (find_ticket tid (tickets_of m)) as [[i tk]|] eqn:E; [|exact Hs].
  apply find_ticket_Some in E as [Hi _]. simpl.
  eapply (sequential_update m _ i tk (Ticket.respond _ _ tk) Hs Hi); reflexivity.
Qed.

Lemma resolve_ticket_sequential t tid res aid m :
  sequential m →
  sequential (resolve_ticket t tid res aid m).1.2.
Proof.
  intros Hs. unfold resolve_ticket.
  destruct (find_ticket tid (tickets_of m)) as [[i tk]|] eqn:E; [|exact Hs].
  apply find_ticket_Some in E as [Hi _]. simpl.
  eapply (sequential_update m _ i tk (Ticket.resolve _ _ _ tk) Hs Hi); reflexivity.
Qed.

Lemma update_ticket_status_sequential t tid st aid msg m :
  sequential m →
  sequential (update_ticket_status t tid st aid msg m).1.2.
Proof.
  intros Hs. unfold update_ticket_status.
  destruct (find_ticket tid (tickets_of m)) as [[i tk]|] eqn:E; [|exact Hs].
  apply find_ticket_Some in E as [Hi _]. simpl.
  eapply (sequential_update m _ i tk (Ticket.set_status _ _ _ tk) Hs Hi); reflexivity.
Qed.

(** ** One visit of the monitor *)

Lemma monitor_visit_unfold clock stamp k ref m tk :
  sequential m →
  tickets_of m !! ref = Some tk →
  monitor_visit clock stamp k ref m =
    if due (clock k) tk
    then (escalated_at (stamp k) ref tk m,
          (λ a, TicketEscalated a (Ticket.id tk)) <$> admin_users m)
    else (m, []).
Proof.
  intros Hs Hi. unfold monitor_visit, due. rewrite Hi.
  destruct (bool_decide _); simpl; [|reflexivity].
  destruct (negb _); simpl; [|reflexivity].
  unfold escalate_ticket. rewrite (find_ticket_sequential m ref tk Hs Hi).
  reflexivity.
Qed.

Lemma tickets_of_escalated_at stamp ref tk m :
  tickets_of (escalated_at stamp ref tk m)
  = <[ref := Ticket.escalate stamp tk]> (tickets_of m).
Proof. reflexivity. Qed.

Lemma escalated_at_sequential stamp ref tk m :
  sequential m →
  tickets_of m !! ref = Some tk →
  sequential (escalated_at stamp ref tk m).
Proof.
  intros Hs Hi.
  eapply (sequential_update m _ ref tk (Ticket.escalate _ tk) Hs Hi); reflexivity.
Qed.

Lemma escalations_for_app tid out1 out2 :
  escalations_for tid (out1 ++ out2)
  = escalations_for tid out1 ++ escalations_for tid out2.
Proof.
  induction out1 as [|n out1 IH]; simpl; [reflexivity|].
  destruct n; try exact IH.
  case_bool_decide; simpl; [f_equal|]; exact IH.
Qed.

Lemma escalations_for_alert tid t admins :
  escalations_for tid ((λ a, TicketEscalated a t) <$> admins)
  = if bool_decide (t = tid) then admins else [].
Proof.
  induction admins as [|a admins IH].
  - simpl. destruct (bool_decide _); reflexivity.
  - rewrite fmap_cons. cbn [escalations_for]. rewrite IH.
    destruct (bool_decide _); reflexivity.
Qed.

Lemma monitor_visit_other clock stamp k ref m i tk m1 out1 :
  sequential m →
  tickets_of m !! i = Some tk →
  ref ≠ i ∨ Ticket.escalated tk = Some true →
  monitor_visit clock stamp k ref m = (m1, out1) →
  sequential m1 ∧ tickets_of m1 !! i = Some tk ∧
  escalations_for (Ticket.id tk) out1 = [] ∧
  admin_users m1 = admin_users m.
Proof.
  intros Hs Hi Hcase Hv.
  destruct (tickets_of m !! ref) as [tkr|] eqn:Hr.
  - rewrite (monitor_visit_unfold _ _ _ _ _ _ Hs Hr) in Hv.
    destruct (due (clock k) tkr) eqn:Hdue; injection Hv as <- <-; [|done].
    assert (ref ≠ i) as Hne.
    { destruct Hcase as [?|Hflag]; [done|]. intros ->.
      rewrite Hi in Hr. injection Hr as <-.
      unfold due in Hdue. rewrite Hflag in Hdue.
      rewrite andb_false_r in Hdue. discriminate. }
    split; [by apply escalated_at_sequential|].
    split; [by rewrite tickets_of_escalated_at, list_lookup_insert_ne|].
    split; [|reflexivity].
    rewrite escalations_for_alert, bool_decide_eq_false_2; [reflexivity|].
    destruct Hs as [Hseq _]. apply Hseq in Hi. apply Hseq in Hr. lia.
  - unfold monitor_visit in Hv. rewrite Hr in Hv. injection Hv as <- <-. done.
Qed.

Lemma monitor_visit_due clock stamp k m i tk m1 out1 :
  sequential m →
  tickets_of m !! i = Some tk →
  due (clock k) tk = true →
  monitor_visit clock stamp k i m = (m1, out1) →
  sequential m1 ∧
  tickets_of m1 !! i = Some (Ticket.escalate (stamp k) tk) ∧
  escalations_for (Ticket.id tk) out1 = admin_users m ∧
  admin_users m1 = admin_users m.
Proof.
  intros Hs Hi Hdue Hv.
  rewrite (monitor_visit_unfold _ _ _ _ _ _ Hs Hi), Hdue in Hv.
  injection Hv as <- <-.
  split; [by apply escalated_at_sequential|].
  split; [|split; [|reflexivity]].
  - rewrite tickets_of_escalated_at.
    apply list_lookup_insert_eq. eapply lookup_lt_Some; eauto.
  - rewrite escalations_for_alert, bool_decide_eq_true_2; reflexivity.
Qed.

(** ** One pass of the monitor *)

(** A ticket that is not on the list of the pass, or is already flagged,
    is left as it is and no alert about it goes out. *)
Lemma monitor_loop_quiet clock stamp refs : ∀ k m i tk m' out,
  sequential m →
  tickets_of m !! i = Some tk →
  i ∉ refs ∨ Ticket.escalated tk = Some true →
  monitor_loop clock stamp k refs m = (m', out) →
  sequential m' ∧ tickets_of m' !! i = Some tk ∧
  escalations_for (Ticket.id tk) out = [] ∧
  admin_users m' = admin_users m.
Proof.
  induction refs as [|ref rest IH]; intros k m i tk m' out Hs Hi Hcase Hl.
  - injection Hl as <- <-. done.
  - simpl in Hl.
    destruct (monitor_visit clock stamp k ref m) as [m1 out1] eqn:Hv.
    destruct (monitor_loop clock stamp (S k) rest m1) as [m2 out2] eqn:Hl2.
    injection Hl as <- <-.
    apply (monitor_visit_other _ _ _ _ _ i tk) in Hv as (Hs1 & Hi1 & He1 & Ha1);
      [|done|done|].
    + apply (IH _ _ i tk) in Hl2 as (Hs2 & Hi2 & He2 & Ha2); [|done|done|].
      * rewrite escalations_for_app, He1, He2, Ha2, Ha1. done.
      * destruct Hcase as [Hnin|?]; [left|by right].
        intros Hin. apply Hnin. by apply list_elem_of_further.
    + destruct Hcase as [Hnin|?]; [left|by right].
      intros ->. apply Hnin. apply list_elem_of_here.
Qed.

(** A ticket on the list of the pass that is due at every reading of the
    pass is escalated, and every admin is alerted once. *)
Lemma monitor_loop_escalates clock stamp refs : ∀ k m i tk m' out,
  sequential m →
  tickets_of m !! i = Some tk →
  i ∈ refs →
  (∀ n, due (clock n) tk = true) →
  monitor_loop clock stamp k refs m = (m', out) →
  sequential m' ∧
  (∃ n, tickets_of m' !! i = Some (Ticket.escalate (stamp n) tk)) ∧
  escalations_for (Ticket.id tk) out = admin_users m ∧
  admin_users m' = admin_users m.
Proof.
  induction refs as [|ref rest IH]; intros k m i tk m' out Hs Hi Hin Hdue Hl.
  - by apply elem_of_nil in Hin.
  - simpl in Hl.
    destruct (monitor_visit clock stamp k ref m) as [m1 out1] eqn:Hv.
    destruct (monitor_loop clock stamp (S k) rest m1) as [m2 out2] eqn:Hl2.
    injection Hl as <- <-.
    destruct (decide (ref = i)) as [->|Hne].
    + apply (monitor_visit_due _ _ _ _ i tk) in Hv as (Hs1 & Hi1 & He1 & Ha1);
        [|done..].
      apply (monitor_loop_quiet _ _ _ _ _ i _) with (1 := Hs1) (2 := Hi1)
        in Hl2 as (Hs2 & Hi2 & He2 & Ha2); [|by right].
      simpl in He2.
      rewrite escalations_for_app, He1, He2, app_nil_r, Ha2, Ha1. eauto.
    + apply (monitor_visit_other _ _ _ _ _ i tk) in Hv as (Hs1 & Hi1 & He1 & Ha1);
        [|done|done|by left].
      apply elem_of_cons in Hin as [->|Hin]; [done|].
      apply (IH _ _ i tk) in Hl2 as (Hs2 & Hi2 & He2 & Ha2); [|done..].
      rewrite escalations_for_app, He1, He2, Ha2, Ha1. done.
Qed.

Lemma elem_of_open_refs tks : ∀ from i tk,
  tks !! i = Some tk →
  Ticket.status tk = "open" →
  (from + i)%nat ∈ open_refs from tks.
Proof.
  induction tks as [|tk0 tks IH]; intros from i tk Hi Hopen; [done|].
  destruct i as [|i]; simpl in Hi.
  - injection Hi as ->. simpl. rewrite bool_decide_eq_true_2 by done.
    rewrite Nat.add_0_r. apply list_elem_of_here.
  - simpl. replace (from + S i)%nat with (S from + i)%nat by lia.
    specialize (IH (S from) i tk Hi Hopen).
    destruct (bool_decide _); [by apply list_elem_of_further|done].
Qed.

Lemma monitor_pass_sequential clock stamp m :
  sequential m → sequential (monitor_pass clock stamp m).1.
Proof.
  intros Hs. unfold monitor_pass.
  generalize (open_refs 0 (tickets_of m)) as refs. generalize 0%nat as k.
  intros k refs. revert k m Hs.
  induction refs as [|ref rest IH]; intros k m Hs; [done|].
  simpl.
  destruct (monitor_visit clock stamp k ref m) as [m1 out1] eqn:Hv.
  specialize (IH (S k) m1).
  destruct (monitor_loop clock stamp (S k) rest m1) as [m2 out2] eqn:Hl2.
  simpl in *. apply IH.
  destruct (tickets_of m !! ref) as [tkr|] eqn:Hr.
  - rewrite (monitor_visit_unfold _ _ _ _ _ _ Hs Hr) in Hv.
    destruct (due _ _); injection Hv as <- <-; [|done].
    by apply escalated_at_sequential.
  - unfold monitor_visit in Hv. rewrite Hr in Hv. by injection Hv as <- <-.
Qed.

(** ** Histories *)

Lemma step_sequential o m :
  sequential m → sequential (step o m).1.2.
Proof.
  intros Hs. destruct o; simpl.
  - by apply (create_sequential now_created now_updated today user_id
                username category message) in Hs.
  - apply (add_ticket_response_sequential now_stamp now_updated ticket_id
             responder_id response0 is_admin) in Hs.
    by destruct (add_ticket_response _ _ _ _ _ _ _) as [[? ?] ?].
  - apply (resolve_ticket_sequential now ticket_id resolution admin_id) in Hs.
    by destruct (resolve_ticket _ _ _ _ _) as [[? ?] ?].
  - apply (update_ticket_status_sequential now ticket_id new_status admin_id
             message) in Hs.
    by destruct (update_ticket_status _ _ _ _ _ _) as [[? ?] ?].
  - apply (monitor_pass_sequential clock stamp) in Hs.
    by destruct (monitor_pass _ _ _) as [? ?].
Qed.

Lemma state_after_cons o ops m :
  state_after (o :: ops) m = state_after ops (step o m).1.2.
Proof.
  unfold state_after. simpl.
  destruct (step o m) as [[r m1] out1]. simpl.
  by destruct (run ops m1) as [[rs m2] out2].
Qed.

Lemma sent_during_cons o ops m :
  sent_during (o :: ops) m = (step o m).2 ++ sent_during ops (step o m).1.2.
Proof.
  unfold sent_during. simpl.
  destruct (step o m) as [[r m1] out1]. simpl.
  by destruct (run ops m1) as [[rs m2] out2].
Qed.

Lemma run_sequential ops : ∀ m,
  sequential m → sequential (state_after ops m).
Proof.
  induction ops as [|o ops IH]; intros m Hs; [done|].
  rewrite state_after_cons. by apply IH, step_sequential.
Qed.

Lemma reachable_sequential m : reachable m → sequential m.
Proof.
  intros (admins & ops & ->). apply run_sequential, sequential_init.
Qed.

(** The flag [escalated] is never taken back by an update in place. *)
Lemma flag_kept_update (tks : list Ticket.t) i tk j tkj tk' :
  tks !! i = Some tk →
  Ticket.escalated tk = Some true →
  tks !! j = Some tkj →
  Ticket.escalated tk' = Ticket.escalated tkj →
  ∃ tk1, <[j := tk']> tks !! i = Some tk1 ∧ Ticket.escalated tk1 = Some true.
Proof.
  intros Hi Hflag Hj Hsame.
  destruct (decide (j = i)) as [->|Hne].
  - exists tk'. rewrite list_lookup_insert_eq by (eapply lookup_lt_Some; eauto).
    split; [done|]. rewrite Hsame. congruence.
  - exists tk. by rewrite list_lookup_insert_ne.
Qed.

(** Once a ticket is flagged, no operation sends an escalation alert about
    it and the flag stays. *)
Lemma step_quiet o m i tk :
  sequential m →
  tickets_of m !! i = Some tk →
  Ticket.escalated tk = Some true →
  (∃ tk1, tickets_of (step o m).1.2 !! i = Some tk1
          ∧ Ticket.escalated tk1 = Some true) ∧
  escalations_for (Ticket.id tk) (step o m).2 = [].
Proof.
  intros Hs Hi Hflag. destruct o; simpl.
  - split.
    + exists tk. unfold tickets_of in *. simpl.
      split; [by apply lookup_app_l_Some|done].
    + unfold notify_admins_new_ticket. simpl.
      induction (admin_users m); simpl; done.
  - unfold add_ticket_response.
    destruct (find_ticket ticket_id (tickets_of m)) as [[j tkj]|] eqn:E; simpl.
    + apply find_ticket_Some in E as [Hj _]. split.
      * eapply (flag_kept_update (tickets_of m)); eauto.
      * by destruct is_admin.
    + eauto.
  - unfold resolve_ticket.
    destruct (find_ticket ticket_id (tickets_of m)) as [[j tkj]|] eqn:E; simpl.
    + apply find_ticket_Some in E as [Hj _]. split; [|done].
      eapply (flag_kept_update (tickets_of m)); eauto.
    + eauto.
  - unfold update_ticket_status.
    destruct (find_ticket ticket_id (tickets_of m)) as [[j tkj]|] eqn:E; simpl.
    + apply find_ticket_Some in E as [Hj _]. split; [|done].
      eapply (flag_kept_update (tickets_of m)); eauto.
    + eauto.
  - unfold monitor_pass.
    destruct (monitor_loop clock stamp 0 (open_refs 0 (tickets_of m)) m)
      as [m' out] eqn:Hl. simpl.
    apply (monitor_loop_quiet _ _ _ _ _ i tk) in Hl as (_ & Hi' & He & _);
      [eauto|done|done|by right].
Qed.

Lemma run_quiet ops : ∀ m i tk,
  sequential m →
  tickets_of m !! i = Some tk →
  Ticket.escalated tk = Some true →
  escalations_for (Ticket.id tk) (sent_during ops m) = [].
Proof.
  induction ops as [|o ops IH]; intros m i tk Hs Hi Hflag; [done|].
  rewrite sent_during_cons, escalations_for_app.
  destruct (step_quiet o m i tk Hs Hi Hflag) as [(tk1 & Hi1 & Hflag1) ->].
  simpl.
  assert (Ticket.id tk1 = Ticket.id tk) as <-.
  { pose proof (step_sequential o m Hs) as [Hseq1 _].
    destruct Hs as [Hseq _].
    apply Hseq in Hi. apply Hseq1 in Hi1. lia. }
  eapply IH; eauto using step_sequential.
Qed.

(** ** The counter of open tickets *)

Lemma count_open_cons tk tks :
  count_open (tk :: tks) = is_open tk + count_open tks.
Proof.
  unfold count_open, is_open. rewrite filter_cons.
  case_bool_decide; case_decide; try done; simpl; lia.
Qed.

Lemma count_open_app tks1 tks2 :
  count_open (tks1 ++ tks2) = count_open tks1 + count_open tks2.
Proof.
  unfold count_open. rewrite filter_app, length_app. lia.
Qed.

Lemma count_open_insert tks : ∀ i tk tk',
  tks !! i = Some tk →
  count_open (<[i := tk']> tks) = count_open tks - is_open tk + is_open tk'.
Proof.
  induction tks as [|tk0 tks IH]; intros i tk tk' Hi; [done|].
  destruct i as [|i]; simpl in Hi.
  - injection Hi as ->. simpl. rewrite !count_open_cons. lia.
  - simpl. rewrite !count_open_cons, (IH i tk tk' Hi). lia.
Qed.

Lemma count_open_nonneg tks : 0 ≤ count_open tks.
Proof. unfold count_open. lia. Qed.

Lemma count_open_lookup tks i tk :
  tks !! i = Some tk → is_open tk ≤ count_open tks.
Proof.
  revert i. induction tks as [|tk0 tks IH]; intros i Hi; [done|].
  rewrite count_open_cons. destruct i as [|i]; simpl in Hi.
  - injection Hi as ->. pose proof (count_open_nonneg tks). lia.
  - specialize (IH i Hi). unfold is_open in *.
    destruct (bool_decide (Ticket.status tk0 = "open")); lia.
Qed.

Lemma counted_init admins : counted (init admins).
Proof. reflexivity. Qed.

Lemma create_counted t1 t2 today uid uname cat msg m :
  counted m →
  counted (create_support_ticket t1 t2 today uid uname cat msg m).1.2.
Proof.
  unfold counted, open_count, tickets_of. simpl. intros ->.
  rewrite count_open_app. reflexivity.
Qed.

Lemma add_ticket_response_counted t1 t2 tid rid resp adm m :
  counted m →
  counted (add_ticket_response t1 t2 tid rid resp adm m).1.2.
Proof.
  intros Hc. unfold add_ticket_response.
  destruct (find_ticket tid (tickets_of m)) as [[i tk]|] eqn:E; [|exact Hc].
  apply find_ticket_Some in E as [Hi _].
  unfold counted, open_count, tickets_of in *. simpl.
  rewrite (count_open_insert _ _ _ _ Hi), Hc. unfold is_open. simpl. lia.
Qed.

(** [update_ticket_status] keeps the counter right, whatever the old and
    the new status are. *)
Lemma update_ticket_status_counted t tid st aid msg m :
  counted m →
  counted (update_ticket_status t tid st aid msg m).1.2.
Proof.
  intros Hc. unfold update_ticket_status.
  destruct (find_ticket tid (tickets_of m)) as [[i tk]|] eqn:E; [|exact Hc].
  apply find_ticket_Some in E as [Hi _].
  unfold counted, open_count, tickets_of in *. simpl.
  rewrite (count_open_insert _ _ _ _ Hi), Hc.
  pose proof (count_open_lookup _ _ _ Hi) as Hle.
  unfold is_open in *. simpl.
  destruct (bool_decide (Ticket.status tk = "open"));
    destruct (bool_decide (st = "open")); simpl; lia.
Qed.

(** [resolve_ticket] keeps the counter right when the ticket it finds is
    open; this is the only case in which subtracting one is right. *)
Lemma resolve_ticket_counted t tid res aid m tk :
  counted m →
  get_ticket_by_id tid m = Some tk →
  Ticket.status tk = "open" →
  counted (resolve_ticket t tid res aid m).1.2.
Proof.
  intros Hc Hget Hopen. apply get_ticket_by_id_Some in Hget as [i E].
  unfold resolve_ticket. rewrite E.
  apply find_ticket_Some in E as [Hi _].
  unfold counted, open_count, tickets_of in *. simpl.
  rewrite (count_open_insert _ _ _ _ Hi), Hc.
  unfold is_open. simpl. rewrite Hopen.
  rewrite bool_decide_eq_true_2 by done. lia.
Qed.

Lemma escalate_ticket_counted now tid m :
  counted m → counted (escalate_ticket now tid m).1.
Proof.
  intros Hc. unfold escalate_ticket.
  destruct (find_ticket tid (tickets_of m)) as [[i tk]|] eqn:E; [|exact Hc].
  apply find_ticket_Some in E as [Hi _].
  unfold counted, open_count, tickets_of in *. simpl.
  rewrite (count_open_insert _ _ _ _ Hi), Hc. unfold is_open. simpl. lia.
Qed.

Lemma monitor_pass_counted clock stamp m :
  counted m → counted (monitor_pass clock stamp m).1.
Proof.
  unfold monitor_pass.
  generalize (open_refs 0 (tickets_of m)) as refs. generalize 0%nat as k.
  intros k refs. revert k m.
  induction refs as [|ref rest IH]; intros k m Hc; [done|].
  simpl.
  destruct (monitor_visit clock stamp k ref m) as [m1 out1] eqn:Hv.
  specialize (IH (S k) m1).
  destruct (monitor_loop clock stamp (S k) rest m1) as [m2 out2] eqn:Hl2.
  simpl in *. apply IH.
  unfold monitor_visit in Hv.
  destruct (tickets_of m !! ref) as [tkr|]; [|by injection Hv as <- <-].
  destruct (bool_decide _); [|by injection Hv as <- <-].
  destruct (negb _); [|by injection Hv as <- <-].
  pose proof (escalate_ticket_counted (stamp k) (Ticket.id tkr) m Hc) as Hc1.
  by rewrite Hv in Hc1.
Qed.

(** [resolve_ticket] on a ticket it finds leaves it resolved, with the
    resolution it was given. *)
Lemma resolve_ticket_sets_resolution t tid res aid m tk :
  sequential m →
  get_ticket_by_id tid m = Some tk →
  ∃ tk', get_ticket_by_id tid (resolve_ticket t tid res aid m).1.2 = Some tk' ∧
         Ticket.status tk' = "resolved" ∧
         Ticket.resolution tk' = Some res.
Proof.
  intros Hs Hget. apply get_ticket_by_id_Some in Hget as [i E].
  pose proof (resolve_ticket_sequential t tid res aid m Hs) as Hs'.
  unfold resolve_ticket in *. rewrite E in *.
  apply find_ticket_Some in E as [Hi Hid].
  exists (Ticket.resolve res t aid tk). split; [|done].
  unfold get_ticket_by_id.
  assert (tid = Ticket.id (Ticket.resolve res t aid tk)) as -> by done.
  erewrite find_ticket_sequential; [done|exact Hs'|].
  simpl. apply list_lookup_insert_eq. eapply lookup_lt_Some; eauto.
Qed.

(** ** The classifier: substrings and the scan *)

Lemma starts_with_app needle : ∀ hay,
  starts_with needle hay = true ↔ ∃ rest, hay = needle +:+ rest.
Proof.
  induction needle as [|a needle IH]; intros hay; simpl.
  - split; [intros _; exists hay; reflexivity|reflexivity].
  - destruct hay as [|b hay].
    + split; [done|]. intros [rest H]. discriminate H.
    + case_bool_decide as Hab.
      * subst b. rewrite IH. split; intros [rest H]; exists rest.
        -- by rewrite H.
        -- by injection H.
      * split; [done|]. intros [rest H]. injection H as -> _. done.
Qed.

(** [contains] is the substring test: the needle occurs between some text
    before and some text after. *)
Lemma contains_spec needle : ∀ hay,
  contains needle hay = true ↔ ∃ before after, hay = before +:+ needle +:+ after.
Proof.
  induction hay as [|c hay IH].
  - simpl. rewrite orb_false_r, starts_with_app. split.
    + intros [rest H]. by exists EmptyString, rest.
    + intros (before & after & H). destruct before; [by exists after|].
      discriminate H.
  - cbn [contains]. rewrite orb_true_iff, IH, starts_with_app. split.
    + intros [[rest H]|(before & after & H)].
      * by exists EmptyString, rest.
      * exists (String c before), after. by rewrite H.
    + intros (before & after & H). destruct before as [|c' before].
      * left. by exists after.
      * right. injection H as _ H. by exists before, after.
Qed.

Lemma mentions_elem kws ml k :
  k ∈ kws → contains k ml = true → mentions kws ml = true.
Proof.
  intros Hin Hk. apply existsb_exists. exists k.
  split; [by apply list_elem_of_In|done].
Qed.

Lemma scan_keywords_mentions localized category data kws ml :
  scan_keywords localized category data kws ml =
    if mentions kws ml then Some (matched localized category data) else None.
Proof.
  induction kws as [|k kws IH]; [done|].
  cbn [scan_keywords mentions existsb]. rewrite IH.
  unfold mentions. by destruct (contains k ml).
Qed.

(** ** Ids returned by histories of creations *)

Lemma results_of_cons o ops m :
  results_of (o :: ops) m = (step o m).1.1 :: results_of ops (step o m).1.2.
Proof.
  unfold results_of. simpl.
  destruct (step o m) as [[r m1] out1]. simpl.
  by destruct (run ops m1) as [[rs m2] out2].
Qed.

Lemma sequential_ids m :
  sequential m →
  Ticket.id <$> tickets_of m = Z.of_nat <$> seq 1 (length (tickets_of m)).
Proof.
  intros [Hseq _]. apply list_eq. intros i. rewrite !list_lookup_fmap.
  destruct (tickets_of m !! i) as [tk|] eqn:E.
  - rewrite lookup_seq_lt by (eapply lookup_lt_Some; eauto).
    cbn -[Z.of_nat Nat.add]. f_equal. rewrite (Hseq _ _ E). lia.
  - rewrite lookup_seq_ge; [done|]. by apply lookup_ge_None.
Qed.

Lemma creates_return_next_ids ops : ∀ m,
  Forall is_create ops →
  sequential m →
  created_ids (results_of ops m)
    = Z.of_nat <$> seq (S (length (tickets_of m))) (length ops) ∧
  length (tickets_of (state_after ops m))
    = (length (tickets_of m) + length ops)%nat.
Proof.
  induction ops as [|o ops IH]; intros m Hall Hs.
  - split; [done|]. unfold state_after. simpl. lia.
  - apply Forall_cons in Hall as [Ho Hall].
    rewrite results_of_cons, state_after_cons.
    pose proof (step_sequential o m Hs) as Hs1.
    destruct (IH _ Hall Hs1) as [IHids IHlen].
    destruct o; try done. simpl in *.
    unfold created_ids in *. simpl. rewrite IHids, IHlen.
    unfold tickets_of. simpl. rewrite length_app. simpl.
    destruct Hs as [_ Hnext]. rewrite Hnext. unfold tickets_of.
    split; [|lia]. f_equal; [lia|].
    by replace (length (SupportTickets.tickets (support_tickets m)) + 1)%nat
      with (S (length (SupportTickets.tickets (support_tickets m)))) by lia.
Qed.

(** * The claims *)

(** C1: the counter [active_tickets] is meant to equal the number of open
    tickets in every reachable state.  [resolve_ticket] subtracts one
    whatever the status of the ticket was, so resolving ticket 1 twice
    reaches a state where the counter is -1 and no ticket is open. *)
Theorem active_tickets_drifts_from_open_count :
  let m := state_after [alice_creates; admin_resolves 2000; admin_resolves 3000]
                       (init [7]) in
  reachable m ∧
  SupportTickets.active_tickets (support_tickets m) = -1 ∧
  open_count m = 0 ∧
  SupportTickets.active_tickets (support_tickets m) ≠ open_count m.
Proof.
  split; [by eexists _, _|]. by vm_compute.
Qed.

(** C2: a second [resolve_ticket] on the same id is meant to be rejected or
    to change nothing, and the decrement to stop at 0.  On the ticket of the
    scenario the second call returns [True], takes the counter from 0 to -1
    and counts the ticket as resolved a second time. *)
Theorem second_resolve_decrements_below_zero :
  let m1 := state_after [alice_creates; admin_resolves 2000] (init [7]) in
  let '(ok, m2, out) := resolve_ticket 3000 1 "refunded" 7 m1 in
  SupportTickets.active_tickets (support_tickets m1) = 0 ∧
  ok = true ∧
  SupportTickets.active_tickets (support_tickets m2) = -1 ∧
  SupportTickets.resolved_tickets (support_tickets m2) = 2 ∧
  out = [TicketResolved 42 1].
Proof. by vm_compute. Qed.

(** C3: a resolved ticket is meant to carry a resolution.
    [update_ticket_status] with ['resolved'] sets the status only: the
    ticket of the scenario ends up resolved with [resolution] still
    [None]. *)
Theorem update_ticket_status_resolves_without_resolution :
  let m := state_after [alice_creates; UpdateStatus 2000 1 "resolved" 7 None]
                       (init [7]) in
  reachable m ∧
  ∃ tk, get_ticket_by_id 1 m = Some tk ∧
        Ticket.status tk = "resolved" ∧
        Ticket.resolution tk = None.
Proof.
  split; [by eexists _, _|]. eexists. by vm_compute.
Qed.

(** C4: a message whose lower-cased text contains "talk to someone" gets no
    automatic answer, whatever else it contains: the phrases that ask for a
    human are tested before the table of categories is looked at. *)
Theorem talk_to_someone_suppresses_auto_response lower localized message :
  contains "talk to someone" (lower message) = true →
  analyze_message_for_auto_response lower localized message = None.
Proof.
  intros H. unfold analyze_message_for_auto_response.
  rewrite (mentions_elem human_agent_keywords _ "talk to someone"); [done| |done].
  unfold human_agent_keywords. rewrite !elem_of_cons. tauto.
Qed.

Lemma talk_to_someone_suppresses_auto_response_witness :
  analyze_message_for_auto_response lower_ascii_string no_localization
    "My payment failed, can I TALK to someone about my order?" = None.
Proof.
  apply talk_to_someone_suppresses_auto_response. vm_compute. reflexivity.
Defined.

(** C5, as stated, fails: the categories are scanned in the order of the
    table and the first one with a keyword in the text wins, so a greeting
    in front of "bitcoin address" is answered as a greeting. *)
Lemma bitcoin_address_behind_greeting :
  ¬ (∀ message,
       contains "bitcoin address" (lower_ascii_string message) = true →
       analyze_message_for_auto_response lower_ascii_string no_localization
         message = Some (response payment_help)).
Proof.
  intros H.
  specialize (H "Hi, what is your Bitcoin address?" eq_refl).
  vm_compute in H. discriminate H.
Qed.

(** C5, amended: a message whose lower-cased text contains "bitcoin
    address", asks for no human and mentions no keyword of the two
    categories in front of [payment_help] ([greeting], [order_status]) gets
    the [payment_help] answer: the localized template when the lookup
    succeeds, the built-in text of the table otherwise. *)
Theorem bitcoin_address_maps_to_payment_help lower localized message :
  contains "bitcoin address" (lower message) = true →
  mentions human_agent_keywords (lower message) = false →
  mentions (keywords greeting) (lower message) = false →
  mentions (keywords order_status) (lower message) = false →
  analyze_message_for_auto_response lower localized message
  = Some (default (response payment_help)
                  (localized "support.auto.payment_help")).
Proof.
  intros Hbtc Hhuman Hgreet Horder.
  unfold analyze_message_for_auto_response. rewrite Hhuman.
  unfold auto_responses. cbn [scan_categories].
  rewrite !scan_keywords_mentions, Hgreet, Horder.
  rewrite (mentions_elem (keywords payment_help) _ "bitcoin address");
    [|cbn [keywords payment_help]; rewrite !elem_of_cons; tauto|done].
  unfold matched. cbn [dict_get key_map]. simpl.
  by destruct (localized _).
Qed.

Lemma bitcoin_address_maps_to_payment_help_witness :
  analyze_message_for_auto_response lower_ascii_string no_localization
    "What Bitcoin address do I send to?"
  = Some (response payment_help).
Proof.
  apply (bitcoin_address_maps_to_payment_help lower_ascii_string no_localization
           "What Bitcoin address do I send to?");
    vm_compute; reflexivity.
Defined.

(** C6: whatever the arguments of a sequence of [create_support_ticket]
    calls on a fresh store, the ids returned are 1, 2, 3, ... in this order
    (so strictly increasing), they are the ids of the tickets in the store,
    and no two tickets share an id. *)
Theorem created_ids_count_from_one admins ops :
  Forall is_create ops →
  let ids := created_ids (results_of ops (init admins)) in
  let m := state_after ops (init admins) in
  ids = Z.of_nat <$> seq 1 (length ops) ∧
  (∀ i j a b, ids !! i = Some a → ids !! j = Some b → (i < j)%nat → a < b) ∧
  Ticket.id <$> tickets_of m = ids ∧
  NoDup (Ticket.id <$> tickets_of m).
Proof.
  intros Hall ids m.
  destruct (creates_return_next_ids ops (init admins) Hall (sequential_init _))
    as [Hids Hlen].
  simpl in Hids, Hlen. fold ids in Hids. fold m in Hlen.
  assert (Ticket.id <$> tickets_of m = ids) as Hstore.
  { rewrite Hids, <- Hlen. apply sequential_ids, run_sequential, sequential_init. }
  split; [done|]. split; [|split; [done|]].
  - intros i j a b Hi Hj Hlt. rewrite Hids in Hi, Hj.
    rewrite list_lookup_fmap in Hi, Hj.
    destruct (seq 1 (length ops) !! i) as [x|] eqn:Ei; [|done].
    destruct (seq 1 (length ops) !! j) as [y|] eqn:Ej; [|done].
    apply lookup_seq in Ei as [-> _]. apply lookup_seq in Ej as [-> _].
    simpl in Hi, Hj. injection Hi as <-. injection Hj as <-. lia.
  - rewrite Hstore, Hids. apply NoDup_fmap_2; [apply _|apply NoDup_seq].
Qed.

Lemma created_ids_count_from_one_witness :
  created_ids
    (results_of [alice_creates;
                 Create 5 6 "2025-01-02" 43 "bob" "Order Issues" "where is it"]
                (init [7]))
  = [1; 2].
Proof.
  apply (created_ids_count_from_one [7]
           [alice_creates;
            Create 5 6 "2025-01-02" 43 "bob" "Order Issues" "where is it"]).
  repeat constructor.
Defined.

(** C7: in a reachable state, take an open ticket that is not flagged as
    escalated and was created more than 24 hours before every clock reading
    of a monitor pass.  The pass sets its priority to high and its flag,
    alerts every admin of the roster exactly once about it, and whatever
    happens afterwards (calls and further passes, at any time) no alert
    about this ticket is sent again. *)
Theorem monitor_escalates_once m i tk clock stamp :
  reachable m →
  tickets_of m !! i = Some tk →
  Ticket.status tk = "open" →
  Ticket.escalated tk ≠ Some true →
  (∀ n, clock n - Ticket.created_at tk > hours_24) →
  let m1 := (monitor_pass clock stamp m).1 in
  let out1 := (monitor_pass clock stamp m).2 in
  (∃ tk1, tickets_of m1 !! i = Some tk1 ∧
          Ticket.id tk1 = Ticket.id tk ∧
          Ticket.status tk1 = "open" ∧
          Ticket.priority tk1 = "high" ∧
          Ticket.escalated tk1 = Some true) ∧
  escalations_for (Ticket.id tk) out1 = admin_users m ∧
  ∀ later, escalations_for (Ticket.id tk) (sent_during later m1) = [].
Proof.
  intros Hreach Hi Hopen Hflag Hold m1 out1.
  apply reachable_sequential in Hreach as Hs.
  assert (∀ n, due (clock n) tk = true) as Hdue.
  { intros n. unfold due. rewrite bool_decide_eq_true_2 by apply Hold.
    by destruct (Ticket.escalated tk) as [[]|]. }
  assert (i ∈ open_refs 0 (tickets_of m)) as Hin
    by apply (elem_of_open_refs _ 0%nat i tk Hi Hopen).
  subst m1 out1. unfold monitor_pass.
  destruct (monitor_loop clock stamp 0 (open_refs 0 (tickets_of m)) m)
    as [m1 out1] eqn:Hl. simpl.
  apply (monitor_loop_escalates _ _ _ _ _ i tk) in Hl
    as (Hs1 & [n Hi1] & He & _); [|done..].
  split; [|split; [done|]].
  - eexists. split; [exact Hi1|]. simpl. by rewrite Hopen.
  - intros later.
    apply (run_quiet later m1 i (Ticket.escalate (stamp n) tk) Hs1 Hi1).
    reflexivity.
Qed.

Lemma monitor_escalates_once_witness :
  let m := state_after [alice_creates] (init [7; 8]) in
  escalations_for 1 (monitor_pass day_later day_later m).2 = [7; 8] ∧
  escalations_for 1
    (sent_during [MonitorPass day_later day_later]
                 (monitor_pass day_later day_later m).1) = [].
Proof.
  pose (m := state_after [alice_creates] (init [7; 8])).
  assert (reachable m) as Hreach by (by eexists _, _).
  destruct (monitor_escalates_once m 0%nat
              (Ticket.mk 1 42 "alice" "Payment Problems" "my btc payment failed"
                         "open" "medium" 1000 1001 [] None None None None None)
              day_later day_later Hreach)
    as (_ & Hsent & Hlater).
  - reflexivity.
  - reflexivity.
  - discriminate.
  - intros n. vm_compute. reflexivity.
  - split; [exact Hsent|apply Hlater].
Defined.

(** C8: when no ticket of the store has the id, [get_ticket_by_id] returns
    [None] and [add_ticket_response], [resolve_ticket] and
    [update_ticket_status] return [False]; every call returns a value. *)
Theorem unknown_id_reports_not_found m tid :
  (∀ tk, tk ∈ tickets_of m → Ticket.id tk ≠ tid) →
  get_ticket_by_id tid m = None ∧
  (∀ t1 t2 rid resp adm,
     (add_ticket_response t1 t2 tid rid resp adm m).1.1 = false) ∧
  (∀ t res aid, (resolve_ticket t tid res aid m).1.1 = false) ∧
  (∀ t st aid msg, (update_ticket_status t tid st aid msg m).1.1 = false).
Proof.
  intros Habsent. apply find_ticket_None in Habsent.
  unfold get_ticket_by_id, add_ticket_response, resolve_ticket,
    update_ticket_status.
  rewrite Habsent. done.
Qed.

Lemma unknown_id_reports_not_found_witness :
  get_ticket_by_id 5 (state_after [alice_creates] (init [7])) = None.
Proof.
  apply (unknown_id_reports_not_found (state_after [alice_creates] (init [7])) 5).
  intros tk Hin. vm_compute in Hin.
  apply list_elem_of_singleton in Hin as ->. discriminate.
Defined.

(** C9: when no ticket of the store has the id, the three operations return
    [False], send nothing and leave the manager as it was: the tickets, the
    counters, the stats and the two saved documents. *)
Theorem unknown_id_changes_nothing m tid :
  (∀ tk, tk ∈ tickets_of m → Ticket.id tk ≠ tid) →
  (∀ t1 t2 rid resp adm,
     add_ticket_response t1 t2 tid rid resp adm m = (false, m, [])) ∧
  (∀ t res aid, resolve_ticket t tid res aid m = (false, m, [])) ∧
  (∀ t st aid msg, update_ticket_status t tid st aid msg m = (false, m, [])).
Proof.
  intros Habsent. apply find_ticket_None in Habsent.
  unfold add_ticket_response, resolve_ticket, update_ticket_status.
  rewrite Habsent. done.
Qed.

Lemma unknown_id_changes_nothing_witness :
  let m := state_after [alice_creates] (init [7]) in
  resolve_ticket 2000 5 "refunded" 7 m = (false, m, []).
Proof.
  intros m.
  apply (unknown_id_changes_nothing m 5).
  intros tk Hin. vm_compute in Hin.
  apply list_elem_of_singleton in Hin as ->. discriminate.
Defined.

(** C10: when [get_ticket_by_id] finds a ticket, [add_ticket_response]
    returns [True] and replaces this ticket, at its position, by one that
    differs in [responses] and [updated_at] only: one response is appended,
    its id is the new length of the list.  The other tickets, the three
    counters, the stats and the roster are as before. *)
Theorem add_ticket_response_frame m tid tk t1 t2 rid resp adm :
  get_ticket_by_id tid m = Some tk →
  let m' := (add_ticket_response t1 t2 tid rid resp adm m).1.2 in
  (add_ticket_response t1 t2 tid rid resp adm m).1.1 = true ∧
  (∃ i tk' r,
     tickets_of m !! i = Some tk ∧
     tickets_of m' = <[i := tk']> (tickets_of m) ∧
     tickets_of m' !! i = Some tk' ∧
     (∀ j, j ≠ i → tickets_of m' !! j = tickets_of m !! j) ∧
     same_but_responses tk tk' ∧
     Ticket.updated_at tk' = t2 ∧
     Ticket.responses tk' = Ticket.responses tk ++ [r] ∧
     Response.id r = Z.of_nat (length (Ticket.responses tk')) ∧
     Response.responder_id r = rid ∧
     Response.response r = resp ∧
     Response.is_admin r = adm) ∧
  length (tickets_of m') = length (tickets_of m) ∧
  SupportTickets.next_ticket_id (support_tickets m')
    = SupportTickets.next_ticket_id (support_tickets m) ∧
  SupportTickets.active_tickets (support_tickets m')
    = SupportTickets.active_tickets (support_tickets m) ∧
  SupportTickets.resolved_tickets (support_tickets m')
    = SupportTickets.resolved_tickets (support_tickets m) ∧
  support_stats m' = support_stats m ∧
  saved_stats m' = saved_stats m ∧
  admin_users m' = admin_users m.
Proof.
  intros Hget m'. subst m'.
  apply get_ticket_by_id_Some in Hget as [i Hfind].
  unfold add_ticket_response. rewrite Hfind. cbn [fst snd].
  apply find_ticket_Some in Hfind as [Hi _].
  pose proof (lookup_lt_Some _ _ _ Hi) as Hlt.
  split; [done|]. split.
  - eexists i, _, _. split; [exact Hi|]. split; [reflexivity|].
    split; [by apply list_lookup_insert_eq|].
    split; [intros j Hne; by apply list_lookup_insert_ne|].
    split; [by repeat split|].
    split; [reflexivity|]. split; [reflexivity|].
    split; [|done].
    cbn [Ticket.respond Ticket.responses Response.id].
    rewrite length_app. simpl. lia.
  - repeat split. apply length_insert.
Qed.

Lemma add_ticket_response_frame_witness :
  let m := state_after [alice_creates] (init [7]) in
  let m' := (add_ticket_response 2000 2001 1 7 "looking into it" true m).1.2 in
  SupportTickets.active_tickets (support_tickets m')
  = SupportTickets.active_tickets (support_tickets m).
Proof.
  intros m m'.
  apply (add_ticket_response_frame m 1
           (Ticket.mk 1 42 "alice" "Payment Problems" "my btc payment failed"
                      "open" "medium" 1000 1001 [] None None None None None)
           2000 2001 7 "looking into it" true).
  reflexivity.
Defined.

(** * Further properties of the manager *)

(** ** Invariants along histories *)

Lemma monitor_pass_invariant (P : manager → Prop) :
  (∀ now tid m, P m → P (escalate_ticket now tid m).1) →
  ∀ clock stamp m, P m → P (monitor_pass clock stamp m).1.
Proof.
  intros Hesc clock stamp m. unfold monitor_pass.
  generalize (open_refs 0 (tickets_of m)) as refs. generalize 0%nat as k.
  intros k refs. revert k m.
  induction refs as [|ref rest IH]; intros k m HP; [done|].
  simpl.
  destruct (monitor_visit clock stamp k ref m) as [m1 out1] eqn:Hv.
  specialize (IH (S k) m1).
  destruct (monitor_loop clock stamp (S k) rest m1) as [m2 out2] eqn:Hl2.
  simpl in *. apply IH.
  unfold monitor_visit in Hv.
  destruct (tickets_of m !! ref) as [tkr|]; [|by injection Hv as <- <-].
  destruct (bool_decide _); [|by injection Hv as <- <-].
  destruct (negb _); [|by injection Hv as <- <-].
  pose proof (Hesc (stamp k) (Ticket.id tkr) m HP) as HP1.
  by rewrite Hv in HP1.
Qed.

Lemma step_invariant (P : manager → Prop) :
  (∀ t1 t2 today uid uname cat msg m,
     P m → P (create_support_ticket t1 t2 today uid uname cat msg m).1.2) →
  (∀ t1 t2 tid rid resp adm m,
     P m → P (add_ticket_response t1 t2 tid rid resp adm m).1.2) →
  (∀ t tid res aid m, P m → P (resolve_ticket t tid res aid m).1.2) →
  (∀ t tid st aid msg m, P m → P (update_ticket_status t tid st aid msg m).1.2) →
  (∀ now tid m, P m → P (escalate_ticket now tid m).1) →
  ∀ o m, P m → P (step o m).1.2.
Proof.
  intros Hc Ha Hr Hu He o m HP. destruct o; simpl.
  - by apply (Hc now_created now_updated today user_id username category
                message) in HP.
  - apply (Ha now_stamp now_updated ticket_id responder_id response0 is_admin)
      in HP.
    by destruct (add_ticket_response _ _ _ _ _ _ _) as [[? ?] ?].
  - apply (Hr now ticket_id resolution admin_id) in HP.
    by destruct (resolve_ticket _ _ _ _ _) as [[? ?] ?].
  - apply (Hu now ticket_id new_status admin_id message) in HP.
    by destruct (update_ticket_status _ _ _ _ _ _) as [[? ?] ?].
  - apply (monitor_pass_invariant P He clock stamp) in HP.
    by destruct (monitor_pass _ _ _) as [? ?].
Qed.

Lemma run_invariant (P : manager → Prop) :
  (∀ o m, P m → P (step o m).1.2) →
  ∀ ops m, P m → P (state_after ops m).
Proof.
  intros Hstep ops. induction ops as [|o ops IH]; intros m HP; [done|].
  rewrite state_after_cons. by apply IH, Hstep.
Qed.

Lemma reachable_invariant (P : manager → Prop) :
  (∀ admins, P (init admins)) →
  (∀ o m, P m → P (step o m).1.2) →
  ∀ m, reachable m → P m.
Proof.
  intros Hinit Hstep m (admins & ops & ->). by apply run_invariant.
Qed.

(** ** Tickets only ever change by the four mutations *)

Lemma evolved_all_refl tks : Forall2 evolved tks tks.
Proof.
  apply Forall2_same_length_lookup. split; [done|].
  intros i x y Hx Hy. rewrite Hx in Hy. injection Hy as <-. apply rtc_refl.
Qed.

Lemma grown_refl m : grown m m.
Proof.
  exists (tickets_of m), []. rewrite app_nil_r.
  split; [done|]. split; [apply evolved_all_refl|done].
Qed.

Lemma grown_trans m1 m2 m3 : grown m1 m2 → grown m2 m3 → grown m1 m3.
Proof.
  intros (old1 & new1 & E1 & F1 & B1) (old2 & new2 & E2 & F2 & B2).
  rewrite E1 in F2.
  apply Forall2_app_inv_l in F2 as (a & b & Fa & Fb & ->).
  exists a, (b ++ new2). split; [by rewrite E2, app_assoc|]. split.
  - eapply Forall2_trans; [|exact F1|exact Fa].
    intros x y z Hxy Hyz. by etrans.
  - apply Forall_app. split; [|done].
    clear -B1 Fb. induction Fb as [|x y l k Hxy _ IH]; [done|].
    apply Forall_cons in B1 as [(tk0 & Hf & Hev) B1].
    constructor; [|by apply IH].
    exists tk0. split; [done|]. by etrans.
Qed.

Lemma grown_update m m' i tk tk' :
  tickets_of m !! i = Some tk →
  mutation tk tk' →
  tickets_of m' = <[i := tk']> (tickets_of m) →
  grown m m'.
Proof.
  intros Hi Hmut Htks. exists (tickets_of m'), [].
  rewrite app_nil_r. split; [done|]. split; [|done].
  rewrite Htks. apply Forall2_same_length_lookup.
  split; [by rewrite length_insert|].
  intros j x y Hx Hy. destruct (decide (i = j)) as [<-|Hne].
  - rewrite list_lookup_insert_eq in Hy by (eapply lookup_lt_Some; eauto).
    rewrite Hi in Hx. injection Hx as <-. injection Hy as <-.
    by apply rtc_once.
  - rewrite list_lookup_insert_ne in Hy by done.
    rewrite Hx in Hy. injection Hy as <-. apply rtc_refl.
Qed.

Lemma create_grown t1 t2 today uid uname cat msg m :
  grown m (create_support_ticket t1 t2 today uid uname cat msg m).1.2.
Proof.
  eexists (tickets_of m), [_]. split; [reflexivity|].
  split; [apply evolved_all_refl|].
  constructor; [|done]. eexists. split; [|apply rtc_refl]. by repeat split.
Qed.

Lemma add_ticket_response_grown t1 t2 tid rid resp adm m :
  grown m (add_ticket_response t1 t2 tid rid resp adm m).1.2.
Proof.
  unfold add_ticket_response.
  destruct (find_ticket tid (tickets_of m)) as [[i tk]|] eqn:E;
    [|apply grown_refl].
  apply find_ticket_Some in E as [Hi _]. simpl.
  eapply (grown_update m _ i tk); [done|apply mutation_respond|reflexivity].
Qed.

Lemma resolve_ticket_grown t tid res aid m :
  grown m (resolve_ticket t tid res aid m).1.2.
Proof.
  unfold resolve_ticket.
  destruct (find_ticket tid (tickets_of m)) as [[i tk]|] eqn:E;
    [|apply grown_refl].
  apply find_ticket_Some in E as [Hi _]. simpl.
  eapply (grown_update m _ i tk); [done|apply mutation_resolve|reflexivity].
Qed.

Lemma update_ticket_status_grown t tid st aid msg m :
  grown m (update_ticket_status t tid st aid msg m).1.2.
Proof.
  unfold update_ticket_status.
  destruct (find_ticket tid (tickets_of m)) as [[i tk]|] eqn:E;
    [|apply grown_refl].
  apply find_ticket_Some in E as [Hi _]. simpl.
  eapply (grown_update m _ i tk); [done|apply mutation_set_status|reflexivity].
Qed.

Lemma escalate_ticket_grown now tid m :
  grown m (escalate_ticket now tid m).1.
Proof.
  unfold escalate_ticket.
  destruct (find_ticket tid (tickets_of m)) as [[i tk]|] eqn:E;
    [|apply grown_refl].
  apply find_ticket_Some in E as [Hi _]. simpl.
  eapply (grown_update m _ i tk); [done|apply mutation_escalate|reflexivity].
Qed.

Lemma step_grown o m : grown m (step o m).1.2.
Proof.
  apply (step_invariant (grown m)); [..|apply grown_refl]; intros;
    (eapply grown_trans; [eassumption|]);
    auto using create_grown, add_ticket_response_grown, resolve_ticket_grown,
      update_ticket_status_grown, escalate_ticket_grown.
Qed.

Lemma run_grown ops : ∀ m, grown m (state_after ops m).
Proof.
  induction ops as [|o ops IH]; intros m; [apply grown_refl|].
  rewrite state_after_cons. eapply grown_trans; [apply step_grown|apply IH].
Qed.

Lemma grown_lookup m m' i tk :
  grown m m' →
  tickets_of m !! i = Some tk →
  ∃ tk', tickets_of m' !! i = Some tk' ∧ evolved tk tk'.
Proof.
  intros (old & new & E & F & _) Hi.
  destruct (Forall2_lookup_l _ _ _ _ _ F Hi) as (tk' & Hi' & Hev).
  exists tk'. split; [|done]. rewrite E. by apply lookup_app_l_Some.
Qed.

Lemma reachable_born m : reachable m → Forall born (tickets_of m).
Proof.
  intros (admins & ops & ->).
  destruct (run_grown ops (init admins)) as (old & new & E & F & B).
  apply Forall2_nil_inv_l in F as ->. by rewrite E.
Qed.

(** ** What the mutations keep *)

Lemma evolved_same_core tk tk' : evolved tk tk' → same_core tk tk'.
Proof.
  induction 1 as [tk|tk tk1 tk2 Hm _ IH]; [by repeat split|].
  destruct IH as (? & ? & ? & ? & ? & ? & ?).
  destruct Hm; simpl in *; by repeat split.
Qed.

Lemma evolved_responses tk tk' :
  evolved tk tk' → Ticket.responses tk `prefix_of` Ticket.responses tk'.
Proof.
  induction 1 as [tk|tk tk1 tk2 Hm _ IH]; [done|].
  etrans; [|exact IH].
  destruct Hm; simpl; [by apply prefix_app_r|done..].
Qed.

Lemma evolved_numbered tk tk' :
  evolved tk tk' → responses_numbered tk → responses_numbered tk'.
Proof.
  induction 1 as [tk|tk tk1 tk2 Hm _ IH]; [done|].
  intros Hn. apply IH. clear IH.
  destruct Hm; simpl; try done.
  intros j r Hj. simpl in Hj.
  apply lookup_app_Some in Hj as [Hj|[Hlen Hj]]; [by apply Hn|].
  apply list_lookup_singleton_Some in Hj as [Hz <-]. simpl. lia.
Qed.

Lemma evolved_priority tk tk' :
  evolved tk tk' → priority_matches_flag tk → priority_matches_flag tk'.
Proof.
  induction 1 as [tk|tk tk1 tk2 Hm _ IH]; [done|].
  intros Hp. apply IH. clear IH.
  destruct Hm; simpl; try done. by right.
Qed.

(** In every reachable state the responses of every ticket carry the ids
    1, 2, 3, ... in the order in which they were added. *)
Theorem response_ids_count_from_one m tk :
  reachable m →
  tk ∈ tickets_of m →
  ∀ j r, Ticket.responses tk !! j = Some r → Response.id r = Z.of_nat j + 1.
Proof.
  intros Hreach Hin.
  apply reachable_born in Hreach.
  rewrite Forall_forall in Hreach.
  destruct (Hreach tk Hin) as (tk0 & Hfresh & Hev).
  apply (evolved_numbered tk0 tk Hev).
  intros j r Hj. destruct Hfresh as (_ & _ & Hnil & _).
  rewrite Hnil in Hj. done.
Qed.

(** No history of calls and monitor passes removes or reorders a ticket,
    rewrites its id, owner, category, message or creation time, or drops
    or rewrites a response: a ticket stays at its position and its
    responses only grow at the end. *)
Theorem tickets_are_kept later m i tk :
  tickets_of m !! i = Some tk →
  ∃ tk', tickets_of (state_after later m) !! i = Some tk' ∧
         same_core tk tk' ∧
         Ticket.responses tk `prefix_of` Ticket.responses tk'.
Proof.
  intros Hi.
  destruct (grown_lookup _ _ _ _ (run_grown later m) Hi) as (tk' & Hi' & Hev).
  exists tk'. split; [done|].
  split; [by apply evolved_same_core|by apply evolved_responses].
Qed.

(** In every reachable state a ticket has priority "medium" and no
    [escalated] key, or priority "high" and [escalated] set: only the
    monitor raises the priority and nothing lowers it. *)
Theorem priority_high_iff_escalated m tk :
  reachable m →
  tk ∈ tickets_of m →
  priority_matches_flag tk.
Proof.
  intros Hreach Hin.
  apply reachable_born in Hreach.
  rewrite Forall_forall in Hreach.
  destruct (Hreach tk Hin) as (tk0 & Hfresh & Hev).
  apply (evolved_priority tk0 tk Hev).
  left. by destruct Hfresh as (_ & ? & _ & _ & _ & _ & _ & ?).
Qed.

(** ** The statistics follow the collection *)

Lemma bump_lookup k d c :
  default 0 (bump k d !! c)
  = default 0 (d !! c) + (if bool_decide (k = c) then 1 else 0).
Proof.
  unfold bump. case_bool_decide as Hk.
  - subst c. by rewrite lookup_insert_eq.
  - rewrite lookup_insert_ne by done. lia.
Qed.

Lemma sum_counts_insert k v (d : gmap string Z) :
  sum_counts (<[k := v]> d) = sum_counts d - default 0 (d !! k) + v.
Proof.
  unfold sum_counts.
  destruct (d !! k) as [v0|] eqn:E; simpl.
  - rewrite <- (insert_delete_id d k v0 E) at 2.
    rewrite <- (insert_delete_eq d k v).
    rewrite !map_fold_insert_L; try (by rewrite lookup_delete_eq);
      [lia|intros; lia..].
  - rewrite map_fold_insert_L; [lia|intros; lia|done].
Qed.

Lemma sum_counts_bump k d : sum_counts (bump k d) = sum_counts d + 1.
Proof. unfold bump. rewrite sum_counts_insert. lia. Qed.

Lemma count_category_app c tks1 tks2 :
  count_category c (tks1 ++ tks2)
  = count_category c tks1 + count_category c tks2.
Proof. unfold count_category. rewrite filter_app, length_app. lia. Qed.

Lemma count_category_insert c tks : ∀ i tk tk',
  tks !! i = Some tk →
  Ticket.category tk' = Ticket.category tk →
  count_category c (<[i := tk']> tks) = count_category c tks.
Proof.
  unfold count_category.
  induction tks as [|tk0 tks IH]; intros i tk tk' Hi Hcat; [done|].
  destruct i as [|i]; simpl in Hi.
  - injection Hi as ->. simpl. rewrite !filter_cons, Hcat.
    by destruct (decide _).
  - simpl. rewrite !filter_cons.
    specialize (IH i tk tk' Hi Hcat).
    destruct (decide _); simpl; lia.
Qed.

Lemma stats_follow_init admins : stats_follow (init admins).
Proof. by repeat split. Qed.

Lemma stats_follow_update m m' i tk tk' :
  stats_follow m →
  tickets_of m !! i = Some tk →
  Ticket.category tk' = Ticket.category tk →
  tickets_of m' = <[i := tk']> (tickets_of m) →
  SupportStats.total_tickets (support_stats m')
    = SupportStats.total_tickets (support_stats m) →
  SupportStats.category_stats (support_stats m')
    = SupportStats.category_stats (support_stats m) →
  SupportStats.daily_tickets (support_stats m')
    = SupportStats.daily_tickets (support_stats m) →
  SupportStats.resolved_tickets (support_stats m')
    = SupportTickets.resolved_tickets (support_tickets m') →
  stats_follow m'.
Proof.
  intros (Htot & Hcat & Hday & _) Hi Hsame Htks Ht Hc Hd Hr.
  repeat split; [| | |done].
  - by rewrite Ht, Htks, length_insert.
  - intros c. rewrite Hc, Htks, (count_category_insert c _ i tk tk'); auto.
  - by rewrite Hd, Htks, length_insert.
Qed.

Lemma create_stats_follow t1 t2 today uid uname cat msg m :
  stats_follow m →
  stats_follow (create_support_ticket t1 t2 today uid uname cat msg m).1.2.
Proof.
  intros (Htot & Hcat & Hday & Hres).
  unfold stats_follow, tickets_of in *. simpl.
  rewrite length_app. simpl. repeat split; [lia| |by rewrite sum_counts_bump; lia|done].
  intros c. rewrite bump_lookup, count_category_app, Hcat. f_equal.
  unfold count_category. rewrite filter_cons. simpl.
  case_bool_decide; case_decide; try done; simpl; lia.
Qed.

Lemma add_ticket_response_stats_follow t1 t2 tid rid resp adm m :
  stats_follow m →
  stats_follow (add_ticket_response t1 t2 tid rid resp adm m).1.2.
Proof.
  intros Hs. unfold add_ticket_response.
  destruct (find_ticket tid (tickets_of m)) as [[i tk]|] eqn:E; [|exact Hs].
  apply find_ticket_Some in E as [Hi _]. simpl.
  eapply (stats_follow_update m _ i tk (Ticket.respond _ _ tk) Hs Hi);
    try reflexivity.
  simpl. apply Hs.
Qed.

Lemma resolve_ticket_stats_follow t tid res aid m :
  stats_follow m →
  stats_follow (resolve_ticket t tid res aid m).1.2.
Proof.
  intros Hs. unfold resolve_ticket.
  destruct (find_ticket tid (tickets_of m)) as [[i tk]|] eqn:E; [|exact Hs].
  apply find_ticket_Some in E as [Hi _]. simpl.
  eapply (stats_follow_update m _ i tk (Ticket.resolve _ _ _ tk) Hs Hi);
    try reflexivity.
  simpl. destruct Hs as (_ & _ & _ & ->). reflexivity.
Qed.

Lemma update_ticket_status_stats_follow t tid st aid msg m :
  stats_follow m →
  stats_follow (update_ticket_status t tid st aid msg m).1.2.
Proof.
  intros Hs. unfold update_ticket_status.
  destruct (find_ticket tid (tickets_of m)) as [[i tk]|] eqn:E; [|exact Hs].
  apply find_ticket_Some in E as [Hi _]. simpl.
  eapply (stats_follow_update m _ i tk (Ticket.set_status _ _ _ tk) Hs Hi);
    try reflexivity.
  simpl. apply Hs.
Qed.

Lemma escalate_ticket_stats_follow now tid m :
  stats_follow m → stats_follow (escalate_ticket now tid m).1.
Proof.
  intros Hs. unfold escalate_ticket.
  destruct (find_ticket tid (tickets_of m)) as [[i tk]|] eqn:E; [|exact Hs].
  apply find_ticket_Some in E as [Hi _]. simpl.
  eapply (stats_follow_update m _ i tk (Ticket.escalate _ tk) Hs Hi);
    try reflexivity.
  simpl. apply Hs.
Qed.

Lemma reachable_stats_follow m : reachable m → stats_follow m.
Proof.
  apply reachable_invariant; [apply stats_follow_init|].
  apply step_invariant;
    auto using create_stats_follow, add_ticket_response_stats_follow,
      resolve_ticket_stats_follow, update_ticket_status_stats_follow,
      escalate_ticket_stats_follow.
Qed.

(** In every reachable state the number of tickets reported by
    [get_support_statistics] is the stored counter [total_tickets], is one
    less than the next id, and is the sum of the per-day counts. *)
Theorem total_tickets_is_len m enabled :
  reachable m →
  let total := Statistics.total_tickets (get_support_statistics enabled m) in
  total = SupportStats.total_tickets (support_stats m) ∧
  total = SupportTickets.next_ticket_id (support_tickets m) - 1 ∧
  total = sum_counts (Statistics.daily_tickets (get_support_statistics enabled m)).
Proof.
  intros Hreach total.
  destruct (reachable_stats_follow m Hreach) as (Htot & _ & Hday & _).
  destruct (reachable_sequential m Hreach) as [_ Hnext].
  subst total. simpl. rewrite Htot, Hnext, Hday. lia.
Qed.

(** In every reachable state the per-category counter of every category is
    the number of tickets of that category (0 for a category never used). *)
Theorem category_stats_count_tickets m c :
  reachable m →
  default 0 (SupportStats.category_stats (support_stats m) !! c)
  = count_category c (tickets_of m).
Proof.
  intros Hreach. by destruct (reachable_stats_follow m Hreach) as (_ & Hcat & _).
Qed.

(** In every reachable state the two counters of resolved tickets, the one
    of the ticket document and the one of the stats document, agree. *)
Theorem resolved_counters_agree m :
  reachable m →
  SupportStats.resolved_tickets (support_stats m)
  = SupportTickets.resolved_tickets (support_tickets m).
Proof.
  intros Hreach. by destruct (reachable_stats_follow m Hreach) as (_ & _ & _ & ?).
Qed.

(** ** The counter of open tickets, again *)

Lemma resolve_ticket_unknown t tid res aid m :
  get_ticket_by_id tid m = None →
  resolve_ticket t tid res aid m = (false, m, []).
Proof.
  unfold get_ticket_by_id, resolve_ticket.
  by destruct (find_ticket tid (tickets_of m)) as [[i tk]|].
Qed.

Lemma run_counted ops : ∀ m,
  counted m → resolves_open_only ops m → counted (state_after ops m).
Proof.
  induction ops as [|o ops IH]; intros m Hc Hops; [done|].
  rewrite state_after_cons. destruct Hops as [Ho Hops].
  apply IH; [|done]. clear IH Hops.
  destruct o; simpl.
  - by apply (create_counted now_created now_updated today user_id username
                category message) in Hc.
  - apply (add_ticket_response_counted now_stamp now_updated ticket_id
             responder_id response0 is_admin) in Hc.
    by destruct (add_ticket_response _ _ _ _ _ _ _) as [[? ?] ?].
  - destruct (get_ticket_by_id ticket_id m) as [tk|] eqn:Hget.
    + pose proof (resolve_ticket_counted now ticket_id resolution admin_id
                    m tk Hc Hget Ho) as Hc'.
      by destruct (resolve_ticket _ _ _ _ _) as [[? ?] ?].
    + by rewrite resolve_ticket_unknown.
  - apply (update_ticket_status_counted now ticket_id new_status admin_id
             message) in Hc.
    by destruct (update_ticket_status _ _ _ _ _ _) as [[? ?] ?].
  - apply (monitor_pass_counted clock stamp) in Hc.
    by destruct (monitor_pass _ _ _) as [? ?].
Qed.

(** As long as [resolve_ticket] is only called on tickets that are open (or
    on unknown ids), the counter [active_tickets] is the number of open
    tickets, which is also what [get_support_statistics] reports as
    [open_tickets]: creations, responses, status updates and monitor passes
    all keep the two equal. *)
Theorem active_tickets_counts_open admins ops enabled :
  resolves_open_only ops (init admins) →
  let m := state_after ops (init admins) in
  SupportTickets.active_tickets (support_tickets m) = open_count m ∧
  Statistics.open_tickets (get_support_statistics enabled m)
  = SupportTickets.active_tickets (support_tickets m).
Proof.
  intros Hops m.
  pose proof (run_counted ops (init admins) (counted_init admins) Hops) as Hc.
  fold m in Hc. split; [exact Hc|]. by rewrite Hc.
Qed.

Lemma active_tickets_counts_open_witness :
  SupportTickets.active_tickets
    (support_tickets
       (state_after [alice_creates; UpdateStatus 1500 1 "pending" 7 None;
                     UpdateStatus 1600 1 "open" 7 None; admin_resolves 2000]
                    (init [7]))) = 0.
Proof.
  apply (active_tickets_counts_open [7]
           [alice_creates; UpdateStatus 1500 1 "pending" 7 None;
            UpdateStatus 1600 1 "open" 7 None; admin_resolves 2000] true).
  vm_compute. done.
Defined.

(** ** Creating, finding, resolving *)

Lemma get_ticket_by_id_at m i tk :
  sequential m →
  tickets_of m !! i = Some tk →
  get_ticket_by_id (Ticket.id tk) m = Some tk.
Proof.
  intros Hs Hi. unfold get_ticket_by_id.
  by rewrite (find_ticket_sequential m i tk Hs Hi).
Qed.

(** In a reachable state the id returned by [create_support_ticket] was
    unused, [get_ticket_by_id] finds under it the ticket just built (open,
    medium priority, no response, no resolution), and every admin of the
    roster is told once about it. *)
Theorem created_ticket_is_found t1 t2 today uid uname cat msg m :
  reachable m →
  let tid := (create_support_ticket t1 t2 today uid uname cat msg m).1.1 in
  let m' := (create_support_ticket t1 t2 today uid uname cat msg m).1.2 in
  let out := (create_support_ticket t1 t2 today uid uname cat msg m).2 in
  get_ticket_by_id tid m = None ∧
  get_ticket_by_id tid m'
  = Some (Ticket.mk tid uid uname cat msg "open" "medium" t1 t2 []
                    None None None None None) ∧
  out = (λ a, NewTicket a tid) <$> admin_users m.
Proof.
  intros Hreach tid m' out.
  apply reachable_sequential in Hreach as Hs.
  pose proof (create_sequential t1 t2 today uid uname cat msg m Hs) as Hs'.
  fold m' in Hs'. split; [|split; [|done]].
  - unfold get_ticket_by_id.
    destruct (find_ticket tid (tickets_of m)) as [[i tk]|] eqn:E; [|done].
    apply find_ticket_Some in E as [Hi Hid].
    destruct Hs as [Hseq Hnext]. apply lookup_lt_Some in Hi as Hlt.
    apply Hseq in Hi. subst tid. simpl in Hid. lia.
  - set (tk := Ticket.mk tid uid uname cat msg "open" "medium" t1 t2 []
                         None None None None None).
    apply (get_ticket_by_id_at m' (length (tickets_of m)) tk Hs').
    subst m'. unfold tickets_of. simpl.
    by rewrite lookup_app_r, Nat.sub_diag.
Qed.

Lemma created_ticket_is_found_witness :
  get_ticket_by_id 1 (state_after [alice_creates] (init [7; 8]))
  = Some (Ticket.mk 1 42 "alice" "Payment Problems" "my btc payment failed"
                    "open" "medium" 1000 1001 [] None None None None None).
Proof.
  apply (created_ticket_is_found 1000 1001 "2025-01-01" 42 "alice"
           "Payment Problems" "my btc payment failed" (init [7; 8])).
  by exists [7; 8], [].
Defined.

(** Creating a ticket and resolving it under the id returned brings
    [active_tickets] back to what it was, adds one to [resolved_tickets],
    leaves the ticket resolved with the resolution given, and tells its
    owner. *)
Theorem create_then_resolve t1 t2 today uid uname cat msg now res aid m :
  reachable m →
  let tid := (create_support_ticket t1 t2 today uid uname cat msg m).1.1 in
  let m1 := (create_support_ticket t1 t2 today uid uname cat msg m).1.2 in
  let m2 := (resolve_ticket now tid res aid m1).1.2 in
  (resolve_ticket now tid res aid m1).1.1 = true ∧
  (resolve_ticket now tid res aid m1).2 = [TicketResolved uid tid] ∧
  SupportTickets.active_tickets (support_tickets m2)
    = SupportTickets.active_tickets (support_tickets m) ∧
  SupportTickets.resolved_tickets (support_tickets m2)
    = SupportTickets.resolved_tickets (support_tickets m) + 1 ∧
  get_ticket_by_id tid m2
  = Some (Ticket.mk tid uid uname cat msg "resolved" "medium" t1 now []
                    None (Some res) (Some aid) None None).
Proof.
  intros Hreach tid m1 m2.
  destruct (created_ticket_is_found t1 t2 today uid uname cat msg m Hreach)
    as (_ & Hget & _).
  fold tid m1 in Hget.
  apply reachable_sequential in Hreach as Hs.
  pose proof (create_sequential t1 t2 today uid uname cat msg m Hs) as Hs1.
  fold m1 in Hs1.
  pose proof (resolve_ticket_sequential now tid res aid m1 Hs1) as Hs2.
  fold m2 in Hs2.
  apply get_ticket_by_id_Some in Hget as [i Hfind].
  subst m2. unfold resolve_ticket in *. rewrite Hfind in *. cbn [fst snd] in *.
  apply find_ticket_Some in Hfind as [Hi _].
  split; [done|]. split; [done|]. split; [simpl; lia|]. split; [done|].
  set (tk' := Ticket.mk tid uid uname cat msg "resolved" "medium" t1 now []
                        None (Some res) (Some aid) None None).
  apply (get_ticket_by_id_at _ i tk' Hs2).
  simpl. apply list_lookup_insert_eq. by eapply lookup_lt_Some.
Qed.

Lemma create_then_resolve_witness :
  SupportTickets.active_tickets
    (support_tickets
       (resolve_ticket 2000 1 "refunded" 7
          (create_support_ticket 1000 1001 "2025-01-01" 42 "alice"
             "Payment Problems" "my btc payment failed" (init [7])).1.2).1.2)
  = 0.
Proof.
  apply (create_then_resolve 1000 1001 "2025-01-01" 42 "alice"
           "Payment Problems" "my btc payment failed" 2000 "refunded" 7
           (init [7])).
  by exists [7], [].
Defined.

Lemma evolved_user_ids l old :
  Forall2 evolved l old → ∀ u,
  Ticket.id <$> filter (λ tk, Ticket.user_id tk = u) l
  = Ticket.id <$> filter (λ tk, Ticket.user_id tk = u) old.
Proof.
  induction 1 as [|x y l k Hxy _ IH]; intros u; [done|].
  apply evolved_same_core in Hxy as (Hid & Huid & _).
  rewrite !filter_cons, Huid.
  destruct (decide _); [|apply IH].
  rewrite !fmap_cons, Hid. f_equal. apply IH.
Qed.

(** [get_user_tickets] never loses a ticket: after any history, the ids of
    the tickets it lists for a user begin with the ids it listed before,
    in the same order. *)
Theorem user_tickets_are_kept later m u :
  Ticket.id <$> get_user_tickets u m
  `prefix_of` Ticket.id <$> get_user_tickets u (state_after later m).
Proof.
  destruct (run_grown later m) as (old & new & E & F & _).
  unfold get_user_tickets. rewrite E, filter_app, fmap_app.
  rewrite (evolved_user_ids _ _ F u). by apply prefix_app_r.
Qed.

(** ** What a monitor pass leaves alone *)

Lemma monitor_visit_idle clock stamp k ref m tk :
  tickets_of m !! ref = Some tk →
  due (clock k) tk = false →
  monitor_visit clock stamp k ref m = (m, []).
Proof.
  intros Hr Hdue. unfold monitor_visit, due in *. rewrite Hr.
  destruct (bool_decide _); [|done]. by destruct (negb _).
Qed.

Lemma monitor_visit_skips clock stamp k ref m i tk m1 out1 :
  sequential m →
  tickets_of m !! i = Some tk →
  ref ≠ i ∨ due (clock k) tk = false →
  monitor_visit clock stamp k ref m = (m1, out1) →
  sequential m1 ∧ tickets_of m1 !! i = Some tk ∧
  escalations_for (Ticket.id tk) out1 = [].
Proof.
  intros Hs Hi [Hne|Hdue] Hv.
  - by apply (monitor_visit_other _ _ _ _ _ i tk) in Hv as (? & ? & ? & _);
      [|done|done|left].
  - destruct (decide (ref = i)) as [->|Hne].
    + rewrite (monitor_visit_idle _ _ _ _ _ tk Hi Hdue) in Hv.
      by injection Hv as <- <-.
    + by apply (monitor_visit_other _ _ _ _ _ i tk) in Hv as (? & ? & ? & _);
        [|done|done|left].
Qed.

Lemma monitor_loop_skips clock stamp refs : ∀ k m i tk m' out,
  sequential m →
  tickets_of m !! i = Some tk →
  i ∉ refs ∨ (∀ n, due (clock n) tk = false) →
  monitor_loop clock stamp k refs m = (m', out) →
  sequential m' ∧ tickets_of m' !! i = Some tk ∧
  escalations_for (Ticket.id tk) out = [].
Proof.
  induction refs as [|ref rest IH]; intros k m i tk m' out Hs Hi Hcase Hl.
  - injection Hl as <- <-. done.
  - simpl in Hl.
    destruct (monitor_visit clock stamp k ref m) as [m1 out1] eqn:Hv.
    destruct (monitor_loop clock stamp (S k) rest m1) as [m2 out2] eqn:Hl2.
    injection Hl as <- <-.
    apply (monitor_visit_skips _ _ _ _ _ i tk) in Hv as (Hs1 & Hi1 & He1);
      [|done|done|].
    + apply (IH _ _ i tk) in Hl2 as (Hs2 & Hi2 & He2); [|done|done|].
      * by rewrite escalations_for_app, He1, He2.
      * destruct Hcase as [Hnin|?]; [left|by right].
        intros Hin. apply Hnin. by apply list_elem_of_further.
    + destruct Hcase as [Hnin|Hd]; [left|by right].
      intros ->. apply Hnin. apply list_elem_of_here.
Qed.

Lemma elem_of_open_refs_inv tks : ∀ from j,
  j ∈ open_refs from tks →
  ∃ i tk, j = (from + i)%nat ∧ tks !! i = Some tk ∧ Ticket.status tk = "open".
Proof.
  induction tks as [|tk0 tks IH]; intros from j Hj; [by apply elem_of_nil in Hj|].
  simpl in Hj. case_bool_decide as Hopen.
  - apply elem_of_cons in Hj as [->|Hj].
    + exists 0%nat, tk0. split; [lia|done].
    + destruct (IH _ _ Hj) as (i & tk & -> & Hi & Ho).
      exists (S i), tk. split; [lia|done].
  - destruct (IH _ _ Hj) as (i & tk & -> & Hi & Ho).
    exists (S i), tk. split; [lia|done].
Qed.

(** A monitor pass does not touch a ticket that is not open, or is already
    flagged, or is at most 24 hours old at every clock reading of the pass
    (exactly 24 hours included): the ticket is as before and no alert
    about it is sent. *)
Theorem monitor_leaves_alone m i tk clock stamp :
  reachable m →
  tickets_of m !! i = Some tk →
  Ticket.status tk ≠ "open" ∨
  Ticket.escalated tk = Some true ∨
  (∀ n, clock n - Ticket.created_at tk ≤ hours_24) →
  tickets_of (monitor_pass clock stamp m).1 !! i = Some tk ∧
  escalations_for (Ticket.id tk) (monitor_pass clock stamp m).2 = [].
Proof.
  intros Hreach Hi Hcase.
  apply reachable_sequential in Hreach as Hs.
  unfold monitor_pass.
  destruct (monitor_loop clock stamp 0 (open_refs 0 (tickets_of m)) m)
    as [m' out] eqn:Hl. simpl.
  apply (monitor_loop_skips _ _ _ _ _ i tk) in Hl as (_ & ? & ?); [done..|].
  destruct Hcase as [Hst|[Hflag|Hage]].
  - left. intros Hin.
    apply elem_of_open_refs_inv in Hin as (i' & tk' & Hii & Hi' & Ho).
    simpl in Hii. subst i'. rewrite Hi in Hi'. by injection Hi' as <-.
  - right. intros n. unfold due. by rewrite Hflag, andb_false_r.
  - right. intros n. unfold due.
    rewrite bool_decide_eq_false_2; [done|]. specialize (Hage n). lia.
Qed.

Lemma monitor_leaves_alone_witness :
  let m := state_after [alice_creates] (init [7]) in
  escalations_for 1 (monitor_pass (λ _, 1000 + hours_24) (λ _, 0) m).2 = [].
Proof.
  intros m.
  apply (monitor_leaves_alone m 0
           (Ticket.mk 1 42 "alice" "Payment Problems" "my btc payment failed"
                      "open" "medium" 1000 1001 [] None None None None None)
           (λ _, 1000 + hours_24) (λ _, 0)).
  - by exists [7], [alice_creates].
  - reflexivity.
  - right. right. intros n. vm_compute. discriminate.
Defined.

Lemma same_but_escalation_refl tk : same_but_escalation tk tk.
Proof. by repeat split. Qed.

Lemma same_but_escalation_trans tk1 tk2 tk3 :
  same_but_escalation tk1 tk2 → same_but_escalation tk2 tk3 →
  same_but_escalation tk1 tk3.
Proof.
  intros ((?&?&?&?&?&?&?)&?&?&?&?&?) ((?&?&?&?&?&?&?)&?&?&?&?&?).
  repeat split; congruence.
Qed.

Lemma monitor_frame_refl m : monitor_frame m m.
Proof.
  repeat split. apply Forall2_same_length_lookup. split; [done|].
  intros i x y Hx Hy. rewrite Hx in Hy. injection Hy as <-.
  apply same_but_escalation_refl.
Qed.

Lemma monitor_frame_trans m1 m2 m3 :
  monitor_frame m1 m2 → monitor_frame m2 m3 → monitor_frame m1 m3.
Proof.
  intros (?&?&?&?&?&?&F1) (?&?&?&?&?&?&F2).
  repeat split; try congruence.
  eapply Forall2_trans; [|exact F1|exact F2].
  apply same_but_escalation_trans.
Qed.

Lemma escalate_ticket_frame now tid m :
  monitor_frame m (escalate_ticket now tid m).1.
Proof.
  unfold escalate_ticket.
  destruct (find_ticket tid (tickets_of m)) as [[i tk]|] eqn:E;
    [|apply monitor_frame_refl].
  apply find_ticket_Some in E as [Hi _]. simpl.
  repeat split. unfold tickets_of. simpl.
  apply Forall2_same_length_lookup. split; [by rewrite length_insert|].
  intros j x y Hx Hy. destruct (decide (i = j)) as [<-|Hne].
  - rewrite list_lookup_insert_eq in Hy by (eapply lookup_lt_Some; eauto).
    unfold tickets_of in Hi. rewrite Hi in Hx.
    injection Hx as <-. injection Hy as <-. by repeat split.
  - rewrite list_lookup_insert_ne in Hy by done.
    rewrite Hx in Hy. injection Hy as <-. apply same_but_escalation_refl.
Qed.

(** A monitor pass changes nothing but the keys [priority], [escalated] and
    [updated_at] of tickets (and the saved copy of the ticket document):
    the number and order of the tickets, their status and responses, the
    three counters, the stats and the roster are as before. *)
Theorem monitor_pass_frame clock stamp m :
  monitor_frame m (monitor_pass clock stamp m).1.
Proof.
  apply (monitor_pass_invariant (monitor_frame m)); [|apply monitor_frame_refl].
  intros now tid m' Hm'.
  eapply monitor_frame_trans; [exact Hm'|apply escalate_ticket_frame].
Qed.

(** ** A second pass at the same readings does nothing *)

Lemma open_refs_same_status tks tks' :
  Forall2 same_but_escalation tks tks' →
  ∀ from, open_refs from tks' = open_refs from tks.
Proof.
  induction 1 as [|x y l k Hxy _ IH]; intros from; [done|].
  simpl. destruct Hxy as (_ & -> & _). by rewrite !IH.
Qed.

Lemma open_refs_bounds tks : ∀ from j,
  j ∈ open_refs from tks → (from ≤ j < from + length tks)%nat.
Proof.
  intros from j Hj.
  apply elem_of_open_refs_inv in Hj as (i & tk & -> & Hi & _).
  apply lookup_lt_Some in Hi. lia.
Qed.

Lemma open_refs_NoDup tks : ∀ from, NoDup (open_refs from tks).
Proof.
  induction tks as [|tk tks IH]; intros from; simpl; [constructor|].
  destruct (bool_decide _); [|apply IH].
  constructor; [|apply IH].
  intros Hin. apply open_refs_bounds in Hin. lia.
Qed.

Lemma monitor_visit_settles clock stamp k ref m tk m1 out1 :
  sequential m →
  tickets_of m !! ref = Some tk →
  monitor_visit clock stamp k ref m = (m1, out1) →
  sequential m1 ∧
  ∃ tk1, tickets_of m1 !! ref = Some tk1 ∧ due (clock k) tk1 = false.
Proof.
  intros Hs Hr Hv.
  rewrite (monitor_visit_unfold _ _ _ _ _ _ Hs Hr) in Hv.
  destruct (due (clock k) tk) eqn:Hdue; injection Hv as <- <-.
  - split; [by apply escalated_at_sequential|].
    exists (Ticket.escalate (stamp k) tk). split.
    + rewrite tickets_of_escalated_at.
      apply list_lookup_insert_eq. by eapply lookup_lt_Some.
    + unfold due. simpl. apply andb_false_r.
  - split; [done|]. by exists tk.
Qed.

Lemma monitor_visit_length clock stamp k ref m :
  length (tickets_of (monitor_visit clock stamp k ref m).1)
  = length (tickets_of m).
Proof.
  unfold monitor_visit.
  destruct (tickets_of m !! ref) as [tk|]; [|done].
  destruct (bool_decide _); [|done]. destruct (negb _); [|done].
  pose proof (escalate_ticket_frame (stamp k) (Ticket.id tk) m)
    as (_&_&_&_&_&_&F).
  symmetry. by eapply Forall2_length.
Qed.

(** After the loop, every ticket on its list is no longer due at the
    reading at which it was visited. *)
Lemma monitor_loop_settles clock stamp refs : ∀ k m m' out,
  sequential m →
  NoDup refs →
  (∀ r, r ∈ refs → is_Some (tickets_of m !! r)) →
  monitor_loop clock stamp k refs m = (m', out) →
  ∀ j r tk', refs !! j = Some r → tickets_of m' !! r = Some tk' →
             due (clock (k + j)%nat) tk' = false.
Proof.
  induction refs as [|ref rest IH]; intros k m m' out Hs Hnd Hin Hl j r tk' Hj Hr;
    [done|].
  simpl in Hl.
  destruct (monitor_visit clock stamp k ref m) as [m1 out1] eqn:Hv.
  destruct (monitor_loop clock stamp (S k) rest m1) as [m2 out2] eqn:Hl2.
  injection Hl as <- <-.
  apply NoDup_cons in Hnd as [Hnin Hnd].
  destruct (Hin ref) as [tk Href]; [apply list_elem_of_here|].
  pose proof (monitor_visit_length clock stamp k ref m) as Hlen.
  rewrite Hv in Hlen. simpl in Hlen.
  destruct (monitor_visit_settles _ _ _ _ _ _ _ _ Hs Href Hv)
    as (Hs1 & tk1 & Href1 & Hdue1).
  destruct j as [|j]; simpl in Hj.
  - injection Hj as <-.
    apply (monitor_loop_skips _ _ _ _ _ ref tk1) in Hl2 as (_ & Href2 & _);
      [|done|done|by left].
    rewrite Href2 in Hr. injection Hr as <-. by rewrite Nat.add_0_r.
  - replace (k + S j)%nat with (S k + j)%nat by lia.
    eapply (IH (S k) m1 m2 out2 Hs1 Hnd); [|done|done|done].
    intros r' Hr'. apply lookup_lt_is_Some. rewrite Hlen.
    apply lookup_lt_is_Some, Hin. by apply list_elem_of_further.
Qed.

Lemma monitor_loop_idle clock stamp refs : ∀ k m,
  (∀ j r tk, refs !! j = Some r → tickets_of m !! r = Some tk →
             due (clock (k + j)%nat) tk = false) →
  monitor_loop clock stamp k refs m = (m, []).
Proof.
  induction refs as [|ref rest IH]; intros k m Hidle; [done|].
  simpl.
  assert (monitor_visit clock stamp k ref m = (m, [])) as ->.
  { destruct (tickets_of m !! ref) as [tk|] eqn:Hr.
    - apply (monitor_visit_idle _ _ _ _ _ tk Hr).
      specialize (Hidle 0%nat ref tk eq_refl Hr). by rewrite Nat.add_0_r in Hidle.
    - unfold monitor_visit. by rewrite Hr. }
  rewrite IH; [done|].
  intros j r tk Hj Hr. replace (S k + j)%nat with (k + S j)%nat by lia.
  by apply (Hidle (S j) r tk).
Qed.

(** In a reachable state, a monitor pass run again at the same clock
    readings changes nothing and sends nothing: whatever was due has been
    flagged by the first pass. *)
Theorem monitor_pass_twice m clock stamp stamp' :
  reachable m →
  let m1 := (monitor_pass clock stamp m).1 in
  monitor_pass clock stamp' m1 = (m1, []).
Proof.
  intros Hreach m1.
  apply reachable_sequential in Hreach as Hs.
  pose proof (monitor_pass_frame clock stamp m) as (_&_&_&_&_&_&F).
  fold m1 in F.
  unfold monitor_pass at 1.
  rewrite (open_refs_same_status _ _ F).
  apply monitor_loop_idle. intros j r tk Hj Hr.
  subst m1. unfold monitor_pass in Hr.
  destruct (monitor_loop clock stamp 0 (open_refs 0 (tickets_of m)) m)
    as [m' out] eqn:Hl. simpl in Hr.
  assert (∀ r', r' ∈ open_refs 0 (tickets_of m) →
                is_Some (tickets_of m !! r')) as Hin.
  { intros r' Hr'. apply lookup_lt_is_Some.
    apply open_refs_bounds in Hr'. lia. }
  exact (monitor_loop_settles _ _ _ _ _ _ _ Hs (open_refs_NoDup _ _) Hin Hl
           j r tk Hj Hr).
Qed.

Lemma monitor_pass_twice_witness :
  let m1 := (monitor_pass day_later day_later
               (state_after [alice_creates] (init [7]))).1 in
  monitor_pass day_later (λ _, 0) m1 = (m1, []).
Proof.
  apply (monitor_pass_twice (state_after [alice_creates] (init [7]))
           day_later day_later (λ _, 0)).
  by exists [7], [alice_creates].
Defined.

(** * Further properties of the classifier and the handlers *)

(** ** The scan of the table *)

Lemma scan_categories_first localized ml before c d after :
  (∀ c' d', (c', d') ∈ before → mentions (keywords d') ml = false) →
  mentions (keywords d) ml = true →
  scan_categories localized (before ++ (c, d) :: after) ml
  = Some (matched localized c d).
Proof.
  intros Hbefore Hd. induction before as [|[c' d'] before IH]; simpl.
  - by rewrite scan_keywords_mentions, Hd.
  - rewrite scan_keywords_mentions, (Hbefore c' d') by apply list_elem_of_here.
    apply IH. intros c'' d'' Hin.
    apply (Hbefore c'' d''). by apply list_elem_of_further.
Qed.

Lemma scan_categories_None localized table ml :
  scan_categories localized table ml = None ↔
  ∀ c d, (c, d) ∈ table → mentions (keywords d) ml = false.
Proof.
  induction table as [|[c d] table IH]; simpl.
  - split; [|done]. intros _ c d Hin. by apply elem_of_nil in Hin.
  - rewrite scan_keywords_mentions.
    destruct (mentions (keywords d) ml) eqn:Hd.
    + split; [done|]. intros H.
      specialize (H c d (list_elem_of_here _ _)). congruence.
    + rewrite IH. split.
      * intros H c' d' [[= -> ->]|Hin]%elem_of_cons; [done|by apply (H c' d')].
      * intros H c' d' Hin. apply (H c' d'). by apply list_elem_of_further.
Qed.

(** First match wins: when no phrase asking for a human occurs, the answer
    is that of the first category of the table, in its order, one of whose
    keywords occurs in the lower-cased text; later categories and longer
    keywords play no role. *)
Theorem first_matching_category_wins lower localized message before c d after :
  auto_responses = before ++ (c, d) :: after →
  mentions human_agent_keywords (lower message) = false →
  (∀ c' d', (c', d') ∈ before → mentions (keywords d') (lower message) = false) →
  mentions (keywords d) (lower message) = true →
  analyze_message_for_auto_response lower localized message
  = Some (matched localized c d).
Proof.
  intros Htable Hhuman Hbefore Hd.
  unfold analyze_message_for_auto_response.
  rewrite Hhuman, Htable. by apply scan_categories_first.
Qed.

Lemma first_matching_category_wins_witness :
  analyze_message_for_auto_response lower_ascii_string no_localization
    "My payment for the order did not go through"
  = Some (response order_status).
Proof.
  apply (first_matching_category_wins lower_ascii_string no_localization
           "My payment for the order did not go through"
           [("greeting", greeting)] "order_status" order_status
           [("payment_help", payment_help); ("product_info", product_info);
            ("shipping_delivery", shipping_delivery);
            ("refund_return", refund_return);
            ("technical_issues", technical_issues);
            ("general_help", general_help)]).
  - reflexivity.
  - vm_compute. reflexivity.
  - intros c' d' Hin. apply list_elem_of_singleton in Hin.
    injection Hin as -> ->. vm_compute. reflexivity.
  - vm_compute. reflexivity.
Defined.

(** The classifier gives no answer exactly when a phrase asking for a human
    occurs in the lower-cased text or no keyword of any category does. *)
Theorem no_auto_response_iff lower localized message :
  analyze_message_for_auto_response lower localized message = None ↔
  mentions human_agent_keywords (lower message) = true ∨
  ∀ c d, (c, d) ∈ auto_responses → mentions (keywords d) (lower message) = false.
Proof.
  unfold analyze_message_for_auto_response.
  destruct (mentions human_agent_keywords (lower message)).
  - split; [by left|done].
  - rewrite scan_categories_None. split; [by right|]. by intros [|].
Qed.

Lemma scan_categories_Some localized table ml r :
  scan_categories localized table ml = Some r →
  ∃ c d, (c, d) ∈ table ∧ mentions (keywords d) ml = true ∧
         r = matched localized c d.
Proof.
  induction table as [|[c d] table IH]; simpl; [done|].
  rewrite scan_keywords_mentions.
  destruct (mentions (keywords d) ml) eqn:Hd.
  - intros [= <-]. exists c, d. split; [apply list_elem_of_here|done].
  - intros H. destruct (IH H) as (c' & d' & Hin & ? & ?).
    exists c', d'. split; [by apply list_elem_of_further|done].
Qed.

(** An answer of the classifier is the text of a category one of whose
    keywords occurs in the message: the localized template of that
    category when the lookup succeeds, the built-in text of the table when
    it fails.  Every category has a template key. *)
Theorem auto_response_comes_from_table lower localized message r :
  analyze_message_for_auto_response lower localized message = Some r →
  ∃ c d key,
    (c, d) ∈ auto_responses ∧
    mentions (keywords d) (lower message) = true ∧
    dict_get c key_map = Some key ∧
    r = default (response d) (localized key).
Proof.
  unfold analyze_message_for_auto_response.
  destruct (mentions human_agent_keywords (lower message)); [done|].
  intros H. apply scan_categories_Some in H as (c & d & Hin & Hm & ->).
  exists c, d. unfold matched.
  unfold auto_responses in Hin.
  repeat (apply elem_of_cons in Hin as [[= -> ->]|Hin];
          [eexists; split; [unfold auto_responses; rewrite !elem_of_cons; tauto|];
           split; [done|]; split; [reflexivity|];
           simpl; by destruct (localized _)|]).
  by apply elem_of_nil in Hin.
Qed.

Lemma auto_response_comes_from_table_witness :
  ∃ c d key,
    (c, d) ∈ auto_responses ∧
    mentions (keywords d) (lower_ascii_string "refund please") = true ∧
    dict_get c key_map = Some key ∧
    response refund_return = default (response d) (no_localization key).
Proof.
  apply (auto_response_comes_from_table lower_ascii_string no_localization
           "refund please" (response refund_return)).
  vm_compute. reflexivity.
Defined.

(** ** The message handler *)

Lemma mentions_app kws1 kws2 ml :
  mentions (kws1 ++ kws2) ml = mentions kws1 ml || mentions kws2 ml.
Proof. unfold mentions. apply existsb_app. Qed.

Lemma handler_keywords_include ml :
  mentions human_agent_keywords ml = true →
  mentions handler_human_agent_keywords ml = true.
Proof.
  intros H.
  change handler_human_agent_keywords with
    (human_agent_keywords
       ++ ["ami human er sathe kotha bolte chai"; "human agent chai";
           "staff er sathe kotha bolte hobe"; "manager er sathe kotha"]).
  by rewrite mentions_app, H.
Qed.

(** Inside a ticket-creation session, any text other than cancel, stop or
    exit (in any case) becomes a ticket: it is stored verbatim as the
    message, under the category of the session, and is not looked at by the
    classifier.  The session is closed, the other sessions are untouched,
    and the one reply carries the id of the ticket. *)
Theorem session_text_becomes_ticket lower localized t1 t2 today transactional
    uid uname text w st :
  support_states w !! uid = Some st →
  Session.action st = "creating_ticket" →
  lower text ∉ ["cancel"; "stop"; "exit"] →
  let r := handle_support_message lower localized t1 t2 today transactional
             uid uname text w in
  let tid := SupportTickets.next_ticket_id (support_tickets (manager_of w)) in
  tickets_of (manager_of r.1)
  = tickets_of (manager_of w)
      ++ [Ticket.mk tid uid (username_or "Unknown" uname) (Session.category st)
                    text "open" "medium" t1 t2 [] None None None None None] ∧
  support_states r.1 = delete uid (support_states w) ∧
  replies r.2 = [TicketCreated tid (Session.category st)].
Proof.
  intros Hst Hact Hcancel r tid. subst r.
  unfold handle_support_message. rewrite Hst.
  rewrite bool_decide_eq_true_2 by done.
  rewrite bool_decide_eq_false_2 by done. simpl.
  split; [done|]. split; [done|].
  unfold replies, notify_admins_new_ticket. rewrite omap_app. simpl.
  induction (admin_users (manager_of w)) as [|a l IH]; [done|exact IH].
Qed.

Lemma session_text_becomes_ticket_witness :
  replies
    (handle_support_message lower_ascii_string no_localization 1000 1001
       "2025-01-01" false 42 (Some "alice") "I want to talk to someone"
       (SupportWorld (init [7])
          {[ 42 := Session.mk "creating_ticket" "General Inquiry" ]})).2
  = [TicketCreated 1 "General Inquiry"].
Proof.
  apply (session_text_becomes_ticket lower_ascii_string no_localization
           1000 1001 "2025-01-01" false 42 (Some "alice")
           "I want to talk to someone"
           (SupportWorld (init [7])
              {[ 42 := Session.mk "creating_ticket" "General Inquiry" ]})
           (Session.mk "creating_ticket" "General Inquiry")).
  - reflexivity.
  - reflexivity.
  - rewrite !elem_of_cons, elem_of_nil.
    intros [H|[H|[H|[]]]]; vm_compute in H; discriminate H.
Defined.

(** Inside a ticket-creation session, cancel, stop or exit (in any case)
    closes the session without creating anything: the manager is as
    before. *)
Theorem cancel_closes_session lower localized t1 t2 today transactional
    uid uname text w st :
  support_states w !! uid = Some st →
  Session.action st = "creating_ticket" →
  lower text ∈ ["cancel"; "stop"; "exit"] →
  handle_support_message lower localized t1 t2 today transactional
    uid uname text w
  = (SupportWorld (manager_of w) (delete uid (support_states w)),
     [Replied TicketCreationCancelled]).
Proof.
  intros Hst Hact Hcancel.
  unfold handle_support_message. rewrite Hst.
  by rewrite !bool_decide_eq_true_2 by done.
Qed.

Lemma cancel_closes_session_witness :
  let w := SupportWorld (init [7])
             {[ 42 := Session.mk "creating_ticket" "General Inquiry" ]} in
  handle_support_message lower_ascii_string no_localization 1000 1001
    "2025-01-01" false 42 (Some "alice") "CANCEL" w
  = (SupportWorld (manager_of w) (delete 42 (support_states w)),
     [Replied TicketCreationCancelled]).
Proof.
  intros w.
  apply (cancel_closes_session lower_ascii_string no_localization
           1000 1001 "2025-01-01" false 42 (Some "alice") "CANCEL" w
           (Session.mk "creating_ticket" "General Inquiry")).
  - reflexivity.
  - reflexivity.
  - apply list_elem_of_here.
Defined.

(** Outside a ticket-creation session the handler changes neither the
    manager nor the sessions.  It stays silent when the user is in a
    transactional state of the user bot and gives exactly one reply
    otherwise. *)
Theorem outside_session_nothing_changes lower localized t1 t2 today
    transactional uid uname text w :
  (∀ st, support_states w !! uid = Some st →
         Session.action st ≠ "creating_ticket") →
  let r := handle_support_message lower localized t1 t2 today transactional
             uid uname text w in
  r.1 = w ∧
  if transactional then r.2 = [] else ∃ answer, replies r.2 = [answer].
Proof.
  intros Hout r. subst r. unfold handle_support_message.
  assert (∀ m,
    if transactional
    then answer_message lower localized transactional uid
           (username_or "Unknown" uname) text m = []
    else ∃ answer,
      replies (answer_message lower localized transactional uid
                 (username_or "Unknown" uname) text m) = [answer]) as Hans.
  { intros m. unfold answer_message. destruct transactional; [done|].
    destruct (mentions handler_human_agent_keywords (lower text)).
    - exists HumanAgentRequestReceived.
      unfold replies, notify_admins_human_agent_request. rewrite omap_app.
      simpl. induction (admin_users m) as [|a l IH]; [done|exact IH].
    - destruct (analyze_message_for_auto_response _ _ _) as [a|];
        [destruct (truthy a)|]; eauto. }
  destruct (support_states w !! uid) as [st|] eqn:Hst.
  - rewrite bool_decide_eq_false_2 by (by apply Hout). simpl.
    split; [done|apply Hans].
  - simpl. split; [done|apply Hans].
Qed.

Lemma outside_session_nothing_changes_witness :
  ∃ answer,
    replies
      (handle_support_message lower_ascii_string no_localization 1000 1001
         "2025-01-01" false 42 (Some "alice") "ok"
         (SupportWorld (init [7]) ∅)).2 = [answer].
Proof.
  apply (outside_session_nothing_changes lower_ascii_string no_localization
           1000 1001 "2025-01-01" false 42 (Some "alice") "ok"
           (SupportWorld (init [7]) ∅)).
  intros st Hst. discriminate Hst.
Defined.

(** Outside a session and a transactional state, a text in which one of
    the manager's human-agent phrases occurs never reaches the classifier:
    every admin of the roster gets one request with the text as typed, and
    the user gets the confirmation. *)
Theorem human_request_reaches_admins lower localized t1 t2 today
    uid uname text w :
  support_states w !! uid = None →
  mentions human_agent_keywords (lower text) = true →
  handle_support_message lower localized t1 t2 today false uid uname text w
  = (w, ((λ a, HumanAgentRequest a uid (username_or "Unknown" uname) text)
           <$> admin_users (manager_of w))
        ++ [Replied HumanAgentRequestReceived]).
Proof.
  intros Hst Hhuman. unfold handle_support_message, answer_message.
  by rewrite Hst, (handler_keywords_include _ Hhuman).
Qed.

Lemma human_request_reaches_admins_witness :
  let w := SupportWorld (init [7; 8]) ∅ in
  let text := "Can I talk to someone about my payment?" in
  handle_support_message lower_ascii_string no_localization 1000 1001
    "2025-01-01" false 42 None text w
  = (w, ((λ a, HumanAgentRequest a 42 (username_or "Unknown" None) text)
           <$> admin_users (manager_of w))
        ++ [Replied HumanAgentRequestReceived]).
Proof.
  intros w text.
  apply (human_request_reaches_admins lower_ascii_string no_localization
           1000 1001 "2025-01-01" 42 None text w).
  - reflexivity.
  - vm_compute. reflexivity.
Defined.

(** ** The callback handler *)

Lemma str_replace_from_skip old new p : ∀ s,
  str_replace_from old new (String.length p) (p +:+ s)
  = str_replace_from old new 0 s.
Proof.
  induction p as [|a p IH]; intros s; [done|].
  change (String a p +:+ s) with (String a (p +:+ s)). simpl. apply IH.
Qed.

Lemma str_replace_absent old new : ∀ s,
  contains old s = false → str_replace_from old new 0 s = s.
Proof.
  induction s as [|c s IH]; intros H; [done|].
  cbn [contains] in H. apply orb_false_iff in H as [Hhere Hrest].
  cbn [str_replace_from]. rewrite Hhere. f_equal. by apply IH.
Qed.

Lemma str_replace_prefix old s :
  old ≠ EmptyString →
  contains old s = false →
  str_replace old EmptyString (old +:+ s) = s.
Proof.
  intros Hne Hs. unfold str_replace.
  destruct old as [|a old]; [done|].
  change (String a old +:+ s) with (String a (old +:+ s)).
  cbn [str_replace_from].
  change (String a (old +:+ s)) with (String a old +:+ s).
  assert (starts_with (String a old) (String a old +:+ s) = true) as ->
    by (apply starts_with_app; eauto).
  change (String.length (String a old) - 1)%nat with (String.length old - 0)%nat.
  rewrite Nat.sub_0_r, str_replace_from_skip.
  by apply str_replace_absent.
Qed.

(** Choosing a category opens a session with that category: for a category
    name in which "support_category_" does not occur, the callback data
    that the category menu builds for it is read back to the same name.
    The manager and the sessions of the other users are untouched. *)
Theorem category_callback_opens_session uid uname category w :
  contains "support_category_" category = false →
  support_callback_handler uid uname ("support_category_" +:+ category) w
  = (SupportWorld (manager_of w)
       (<[uid := Session.mk "creating_ticket" category]> (support_states w)),
     [Edited (CategoryPrompt category) []; Answered]).
Proof.
  intros Hplain. unfold support_callback_handler.
  assert (starts_with "support_category_" ("support_category_" +:+ category)
          = true) as Hsw by (apply starts_with_app; eauto).
  rewrite !bool_decide_eq_false_2, Hsw by done.
  by rewrite str_replace_prefix.
Qed.

Lemma category_callback_opens_session_witness :
  support_callback_handler 42 (Some "alice")
    ("support_category_" +:+ "Order Issues") (SupportWorld (init [7]) ∅)
  = (SupportWorld (manager_of (SupportWorld (init [7]) ∅))
       (<[42 := Session.mk "creating_ticket" "Order Issues"]>
          (support_states (SupportWorld (init [7]) ∅))),
     [Edited (CategoryPrompt "Order Issues") []; Answered]).
Proof.
  apply (category_callback_opens_session 42 (Some "alice") "Order Issues"
           (SupportWorld (init [7]) ∅)).
  vm_compute. reflexivity.
Defined.

Lemma support_categories_plain category :
  category ∈ support_categories →
  contains "support_category_" category = false.
Proof.
  unfold support_categories. rewrite !elem_of_cons, elem_of_nil.
  intros [->|[->|[->|[->|[->|[->|[]]]]]]]; vm_compute; reflexivity.
Qed.

(** From the menu to the ticket: pressing a category button of
    [create_support_category_menu] and then sending a text that is not
    cancel, stop or exit creates a ticket whose category is the label of
    the button and whose message is the text, and leaves the user without
    a session. *)
Theorem category_button_then_text lower localized t1 t2 today transactional
    uid uname category text w :
  Button (Literal category) ("support_category_" +:+ category)
    ∈ create_support_category_menu →
  lower text ∉ ["cancel"; "stop"; "exit"] →
  let w1 := (support_callback_handler uid uname
               ("support_category_" +:+ category) w).1 in
  let r := handle_support_message lower localized t1 t2 today transactional
             uid uname text w1 in
  let tid := SupportTickets.next_ticket_id (support_tickets (manager_of w)) in
  tickets_of (manager_of r.1)
  = tickets_of (manager_of w)
      ++ [Ticket.mk tid uid (username_or "Unknown" uname) category text
                    "open" "medium" t1 t2 [] None None None None None] ∧
  support_states r.1 !! uid = None ∧
  replies r.2 = [TicketCreated tid category].
Proof.
  intros Hbutton Hcancel w1 r tid.
  assert (category ∈ support_categories) as Hcat.
  { unfold create_support_category_menu in Hbutton.
    apply elem_of_app in Hbutton as [Hin|Hin].
    - apply list_elem_of_fmap in Hin as (c & [= ->] & Hc). done.
    - apply list_elem_of_singleton in Hin. discriminate Hin. }
  pose proof (category_callback_opens_session uid uname category w
                (support_categories_plain _ Hcat)) as Hcb.
  subst w1 r. rewrite Hcb. cbn [fst].
  destruct (session_text_becomes_ticket lower localized t1 t2 today
              transactional uid uname text
              (SupportWorld (manager_of w)
                 (<[uid := Session.mk "creating_ticket" category]>
                    (support_states w)))
              (Session.mk "creating_ticket" category))
    as (Htks & Hstates & Hreplies); [apply lookup_insert_eq|done|done|].
  split; [exact Htks|]. split; [|exact Hreplies].
  rewrite Hstates. apply lookup_delete_eq.
Qed.

Lemma category_button_then_text_witness :
  replies
    (handle_support_message lower_ascii_string no_localization 1000 1001
       "2025-01-01" false 42 (Some "alice") "my btc payment failed"
       (support_callback_handler 42 (Some "alice")
          ("support_category_" +:+ "Payment Problems")
          (SupportWorld (init [7]) ∅)).1).2
  = [TicketCreated 1 "Payment Problems"].
Proof.
  apply (category_button_then_text lower_ascii_string no_localization
           1000 1001 "2025-01-01" false 42 (Some "alice") "Payment Problems"
           "my btc payment failed" (SupportWorld (init [7]) ∅)).
  - unfold create_support_category_menu, support_categories.
    rewrite elem_of_app, !fmap_cons, !elem_of_cons. tauto.
  - rewrite !elem_of_cons, elem_of_nil.
    intros [H|[H|[H|[]]]]; vm_compute in H; discriminate H.
Defined.

Lemma menu_callbacks_are_handled d uid uname w :
  d ∈ menu_callbacks →
  support_callback_filter d = true ∧
  ∃ text markup, Edited text markup ∈ (support_callback_handler uid uname d w).2.
Proof.
  unfold menu_callbacks. rewrite !elem_of_cons, elem_of_nil.
  intros [->|[->|[->|[->|[->|[]]]]]]; (split; [reflexivity|]);
    unfold support_callback_handler; decide_data.
  - eexists _, _. apply list_elem_of_here.
  - destruct (get_user_tickets uid (manager_of w));
      eexists _, _; apply list_elem_of_here.
  - eexists _, _. apply list_elem_of_here.
  - eexists _, _. cbn [snd]. rewrite !elem_of_app. left. right.
    apply list_elem_of_here.
  - eexists _, _. apply list_elem_of_here.
Qed.

Lemma buttons_shown_app out1 out2 :
  buttons_shown (out1 ++ out2) = buttons_shown out1 ++ buttons_shown out2.
Proof.
  induction out1 as [|s out1 IH]; [done|].
  destruct s; simpl; rewrite ?IH; [by rewrite app_assoc|done..].
Qed.

Lemma buttons_shown_requests (l : list sent) :
  buttons_shown (Requested <$> l) = [].
Proof. induction l as [|s l IH]; [done|exact IH]. Qed.

Lemma category_menu_callbacks b :
  b ∈ create_support_category_menu →
  callback_data b ∈ menu_callbacks ∨
  ∃ c, c ∈ support_categories ∧ callback_data b = "support_category_" +:+ c.
Proof.
  intros Hb. unfold create_support_category_menu in Hb.
  apply elem_of_app in Hb as [Hin|Hin].
  - apply list_elem_of_fmap in Hin as (c & -> & Hc). right. eauto.
  - apply list_elem_of_singleton in Hin as ->. left.
    unfold menu_callbacks. rewrite !elem_of_cons. tauto.
Qed.

Lemma handler_buttons uid uname data w b :
  b ∈ buttons_shown (support_callback_handler uid uname data w).2 →
  callback_data b ∈ menu_callbacks ∨
  ∃ c, c ∈ support_categories ∧ callback_data b = "support_category_" +:+ c.
Proof.
  unfold support_callback_handler.
  repeat match goal with
  | |- context [bool_decide (data = ?d)] => destruct (bool_decide (data = d))
  | |- context [starts_with ?p data] => destruct (starts_with p data)
  | |- context [get_user_tickets uid (manager_of w)] =>
      destruct (get_user_tickets uid (manager_of w))
  end; cbn [snd]; rewrite ?buttons_shown_app, ?buttons_shown_requests;
  cbn [buttons_shown app]; rewrite ?app_nil_r.
  all: try apply category_menu_callbacks.
  all: try (intros Hb; by apply elem_of_nil in Hb).
  all: unfold create_support_menu.
  all: try (intros Hb; left; unfold menu_callbacks;
            rewrite !elem_of_cons, elem_of_nil in Hb;
            rewrite !elem_of_cons;
            repeat destruct Hb as [->|Hb]; try destruct Hb; simpl; tauto).
Qed.

(** No dead button: whatever the callback handler puts on the screen, each
    of its buttons carries callback data that the handler's filter accepts
    and for which the handler, for any user and state, shows a screen
    again. *)
Theorem support_buttons_are_handled uid uname data w b :
  b ∈ buttons_shown (support_callback_handler uid uname data w).2 →
  support_callback_filter (callback_data b) = true ∧
  ∀ uid' uname' w', ∃ text markup,
    Edited text markup
      ∈ (support_callback_handler uid' uname' (callback_data b) w').2.
Proof.
  intros Hb. apply handler_buttons in Hb as [Hd|(c & Hc & ->)].
  - split; [by apply (menu_callbacks_are_handled _ 0 None w)|].
    intros uid' uname' w'. by apply menu_callbacks_are_handled.
  - split.
    + unfold support_categories in Hc. rewrite !elem_of_cons, elem_of_nil in Hc.
      by destruct Hc as [->|[->|[->|[->|[->|[->|[]]]]]]].
    + intros uid' uname' w'.
      rewrite (category_callback_opens_session uid' uname' c w'
                 (support_categories_plain c Hc)).
      eexists _, _. apply list_elem_of_here.
Qed.

Lemma support_buttons_are_handled_witness :
  support_callback_filter "support_faq" = true.
Proof.
  apply (support_buttons_are_handled 42 None "support_menu"
           (SupportWorld (init [7]) ∅)
           (Button (Localized "support.menu.faq") "support_faq")).
  unfold support_callback_handler.
  rewrite bool_decide_eq_true_2 by done. simpl.
  rewrite !elem_of_cons. tauto.
Defined.

(** * Properties of the review manager *)


Lemma reviews_consistent_init : reviews_consistent load_reviews.
Proof.
  unfold reviews_consistent, load_reviews; cbn [Reviews.reviews Reviews.total_reviews Reviews.rating_distribution Reviews.verified_reviews Reviews.featured_reviews].
  split; [intros i r H; by destruct i|].
  split; [done|].
  split.
  { intros r.
    destruct (decide (r = 5)) as [->|?]; [done|].
    destruct (decide (r = 4)) as [->|?]; [done|].
    destruct (decide (r = 3)) as [->|?]; [done|].
    destruct (decide (r = 2)) as [->|?]; [done|].
    destruct (decide (r = 1)) as [->|?]; [done|].
    by rewrite !lookup_insert_ne by done. }
  split.
  { rewrite !dom_insert_L, dom_empty_L. set_solver. }
  split; [done|].
  intros f Hf. by apply elem_of_nil in Hf.
Qed.

Lemma valid_rating_in_dom (d : gmap Z Z) rating :
  dom d = {[1; 2; 3; 4; 5]} → valid_rating rating ↔ is_Some (d !! rating).
Proof.
  intros Hdom. rewrite <- elem_of_dom, Hdom. unfold valid_rating.
  rewrite !elem_of_union, !elem_of_singleton. lia.
Qed.





(** On a consistent document, [add_review] with a rating outside 1..5
    raises [KeyError], but only after appending the review and
    incrementing [total_reviews]: the distribution, the average, the
    verified count and the featured list are as before and nothing is
    saved. *)
Theorem add_review_invalid_rating now uid uname rating comment oid rm :
  reviews_consistent (reviews_of rm) →
  ¬ valid_rating rating →
  let r := add_review now uid uname rating comment oid rm in
  let d := reviews_of rm in
  let d' := reviews_of r.2 in
  r.1 = KeyError ∧
  Reviews.reviews d'
  = Reviews.reviews d
      ++ [Review.mk (Z.of_nat (length (Reviews.reviews d)) + 1) uid uname rating
                    comment oid (bool_decide (is_Some oid)) now 0 0] ∧
  Reviews.total_reviews d' = Reviews.total_reviews d + 1 ∧
  Reviews.rating_distribution d' = Reviews.rating_distribution d ∧
  Reviews.average d' = Reviews.average d ∧
  Reviews.verified_reviews d' = Reviews.verified_reviews d ∧
  Reviews.featured_reviews d' = Reviews.featured_reviews d ∧
  saved_reviews r.2 = saved_reviews rm.
Proof.
  intros (_ & _ & _ & Hdom & _) Hinvalid r d d'. subst r d d'.
  unfold add_review.
  destruct (Reviews.rating_distribution (reviews_of rm) !! rating) as [n|] eqn:E.
  - exfalso. apply Hinvalid. apply (valid_rating_in_dom _ _ Hdom). eauto.
  - by repeat split.
Qed.

Lemma add_review_invalid_rating_witness :
  (add_review 10 42 "alice" 6 "six stars" None init_reviews).1 = KeyError.
Proof.
  apply (add_review_invalid_rating 10 42 "alice" 6 "six stars" None init_reviews).
  - apply reviews_consistent_init.
  - unfold valid_rating. lia.
Defined.

Lemma list_remove_first_length x l :
  (length (list_remove_first x l) ≤ length l)%nat.
Proof.
  induction l as [|y l IH]; simpl; [done|].
  destruct (bool_decide (y = x)); simpl; lia.
Qed.

Lemma review_step_featured o rm :
  (length (Reviews.featured_reviews (reviews_of rm)) ≤ 5)%nat →
  (length (Reviews.featured_reviews (reviews_of (review_step o rm))) ≤ 5)%nat.
Proof.
  intros H. destruct o as [now uid uname rating comment oid|rid]; simpl.
  - unfold add_review.
    destruct (Reviews.rating_distribution (reviews_of rm) !! rating); simpl;
      [|done].
    destruct (bool_decide (4 ≤ rating) && bool_decide _); [|done].
    case_bool_decide; [|done]. rewrite length_app. simpl. lia.
  - unfold delete_review.
    destruct (get_review_by_id rid rm) as [r|]; [|done].
    destruct (Reviews.rating_distribution (reviews_of rm) !! Review.rating r);
      simpl; [|done].
    case_bool_decide; [|done].
    pose proof (list_remove_first_length (Review.id r)
                  (Reviews.featured_reviews (reviews_of rm))). lia.
Qed.

(** Whatever reviews are added and deleted, with whatever ratings and
    whether the calls return or raise, the list of featured reviews never
    holds more than five ids. *)
Theorem featured_reviews_at_most_five ops rm :
  (length (Reviews.featured_reviews (reviews_of rm)) ≤ 5)%nat →
  (length (Reviews.featured_reviews (reviews_of (reviews_after ops rm))) ≤ 5)%nat.
Proof.
  revert rm. induction ops as [|o ops IH]; intros rm H; [done|].
  unfold reviews_after. simpl. apply IH. by apply review_step_featured.
Qed.

Lemma featured_reviews_at_most_five_witness :
  (length
     (Reviews.featured_reviews
        (reviews_of
           (reviews_after
              [AddReview 10 42 "alice" 5 "Fast delivery, great support!" None;
               DeleteReview 1]
              init_reviews))) ≤ 5)%nat.
Proof.
  apply (featured_reviews_at_most_five
           [AddReview 10 42 "alice" 5 "Fast delivery, great support!" None;
            DeleteReview 1] init_reviews).
  simpl. lia.
Defined.

(** After [delete_review], whether it returned or raised, no review with
    the id is left: [get_review_by_id] returns [None]. *)
Theorem deleted_review_is_gone rid rm :
  get_review_by_id rid (delete_review rid rm).2 = None.
Proof.
  unfold delete_review.
  destruct (get_review_by_id rid rm) as [r|] eqn:Hget; [|done].
  assert (∀ l, snd <$> list_find (λ x, Review.id x = rid)
                 (filter (λ x, Review.id x ≠ rid) l) = None) as Hgone.
  { intros l.
    destruct (list_find _ _) as [[i x]|] eqn:E; [|done].
    apply list_find_Some in E as (Hi & Hid & _).
    apply list_elem_of_lookup_2, list_elem_of_filter in Hi as [Hne _]. done. }
  destruct (Reviews.rating_distribution (reviews_of rm) !! Review.rating r);
    apply Hgone.
Qed.











(** * Runs of the properties above on the scenario *)

Lemma scenario_reachable ops : reachable (state_after ops (init [7])).
Proof. by exists [7], ops. Qed.

Lemma total_tickets_is_len_witness :
  let m := state_after [alice_creates; admin_resolves 2000] (init [7]) in
  Statistics.total_tickets (get_support_statistics true m)
  = SupportStats.total_tickets (support_stats m).
Proof.
  intros m. apply (total_tickets_is_len m true). apply scenario_reachable.
Defined.

Lemma category_stats_count_tickets_witness :
  let m := state_after [alice_creates; admin_resolves 2000] (init [7]) in
  default 0 (SupportStats.category_stats (support_stats m) !! "Payment Problems")
  = count_category "Payment Problems" (tickets_of m).
Proof.
  intros m. apply (category_stats_count_tickets m "Payment Problems").
  apply scenario_reachable.
Defined.

Lemma resolved_counters_agree_witness :
  let m := state_after [alice_creates; admin_resolves 2000] (init [7]) in
  SupportStats.resolved_tickets (support_stats m)
  = SupportTickets.resolved_tickets (support_tickets m).
Proof.
  intros m. apply (resolved_counters_agree m). apply scenario_reachable.
Defined.

Lemma response_ids_count_from_one_witness :
  Response.id (Response.mk 1 7 "looking into it" true 1500) = Z.of_nat 0 + 1.
Proof.
  apply (response_ids_count_from_one
           (state_after [alice_creates; admin_answers] (init [7]))
           alice_answered).
  - apply scenario_reachable.
  - assert (tickets_of (state_after [alice_creates; admin_answers] (init [7]))
            = [alice_answered]) as -> by reflexivity.
    apply list_elem_of_here.
  - reflexivity.
Defined.

Lemma tickets_are_kept_witness :
  ∃ tk', tickets_of (state_after [admin_resolves 2000]
                       (state_after [alice_creates; admin_answers] (init [7])))
           !! 0%nat = Some tk' ∧
         same_core alice_answered tk' ∧
         Ticket.responses alice_answered `prefix_of` Ticket.responses tk'.
Proof.
  apply (tickets_are_kept [admin_resolves 2000]
           (state_after [alice_creates; admin_answers] (init [7])) 0
           alice_answered).
  reflexivity.
Defined.

Lemma priority_high_iff_escalated_witness :
  priority_matches_flag alice_answered.
Proof.
  apply (priority_high_iff_escalated
           (state_after [alice_creates; admin_answers] (init [7]))
           alice_answered).
  - apply scenario_reachable.
  - assert (tickets_of (state_after [alice_creates; admin_answers] (init [7]))
            = [alice_answered]) as -> by reflexivity.
    apply list_elem_of_here.
Defined.
